(** * Live-audio transport core: codec, resampler, quantizer, capture
      pipeline and playback scheduler

    A shallow embedding of [utils.ts] (the four exported helpers
    [encode], [decode], [createBlob], [decodeAudioData] and the private
    [resampleLinear]) and of the scheduling part of [index.tsx]
    ([initAudio], the [onmessage] callback, [stopRecording], [reset]),
    followed by the properties of the design document checked against
    them. *)

From Stdlib Require Import ZArith QArith Qround Qabs Lia Lqa List Bool Arith.
From Stdlib Require Import Strings.Ascii Strings.String Strings.Byte.
From Stdlib Require Import Floats.PrimFloat Floats.SpecFloat Floats.FloatOps.
Import ListNotations.

Close Scope Q_scope.
Open Scope Z_scope.

Set Implicit Arguments.

(* ================================================================= *)
(** * Part I — definitions                                            *)
(* ================================================================= *)

(** ** JavaScript strings and byte arrays

    A [Uint8Array] is a list of bytes.  The strings this code handles
    are "binary strings" (one code unit below 256 per byte) and base64
    text, so a string is a list of 8-bit characters. *)

Definition Uint8Array := list byte.
Definition jsstring := list ascii.

Definition str (s : string) : jsstring := list_ascii_of_string s.

(** [String.fromCharCode(b)] for an element of a [Uint8Array], and
    [s.charCodeAt(i)] stored into a [Uint8Array]. *)
Definition fromCharCode (b : byte) : ascii := ascii_of_byte b.
Definition charCodeAt_u8 (c : ascii) : byte := byte_of_ascii c.

(** ** The platform's [btoa] and [atob]

    Both are browser functions, specified by the WHATWG "forgiving
    base64" algorithms; the model follows that text step by step. *)
Module Base64.

Definition alphabet : jsstring :=
  str "ABCDEFGHIJKLMNOPQRSTUVWXYZabcdefghijklmnopqrstuvwxyz0123456789+/".

Definition pad : ascii := "="%char.

(** The character of a 6-bit value. *)
Definition digit (v : Z) : ascii := nth (Z.to_nat v) alphabet pad.

(** The 6-bit value of a character of the alphabet. *)
Fixpoint index_from (c : ascii) (l : jsstring) (i : Z) : option Z :=
  match l with
  | [] => None
  | d :: l' => if Ascii.eqb c d then Some i else index_from c l' (i + 1)
  end.

Definition value (c : ascii) : option Z := index_from c alphabet 0.

Definition code (c : ascii) : Z := Z.of_N (N_of_ascii c).
Definition char (z : Z) : ascii := ascii_of_N (Z.to_N z).

(** [btoa]: three bytes become a 24-bit group written as four digits;
    a final group of one or two bytes is padded with [=]. *)
Fixpoint btoa (s : jsstring) : jsstring :=
  match s with
  | [] => []
  | [a] =>
      let n := code a * 65536 in
      [digit (n / 262144); digit (n / 4096 mod 64); pad; pad]
  | [a; b] =>
      let n := code a * 65536 + code b * 256 in
      [digit (n / 262144); digit (n / 4096 mod 64); digit (n / 64 mod 64);
       pad]
  | a :: b :: c :: rest =>
      let n := code a * 65536 + code b * 256 + code c in
      digit (n / 262144) :: digit (n / 4096 mod 64)
        :: digit (n / 64 mod 64) :: digit (n mod 64) :: btoa rest
  end.

Definition is_ascii_whitespace (c : ascii) : bool :=
  let n := code c in
  (n =? 9) || (n =? 10) || (n =? 12) || (n =? 13) || (n =? 32).

(** Step 2 of the decoder: when the length is a multiple of four, one
    or two trailing [=] are removed. *)
Definition drop_last_pad (s : jsstring) : jsstring :=
  match rev s with
  | c :: r => if Ascii.eqb c pad then rev r else s
  | [] => s
  end.

Definition strip_padding (s : jsstring) : jsstring :=
  if (Z.of_nat (List.length s) mod 4 =? 0)
  then match rev s with
       | c :: r => if Ascii.eqb c pad then drop_last_pad (rev r) else s
       | [] => s
       end
  else s.

Definition in_alphabet (c : ascii) : bool :=
  match value c with Some _ => true | None => false end.

Definition value_or_0 (c : ascii) : Z :=
  match value c with Some v => v | None => 0 end.

(** Steps 5 to 7: a bit buffer receives six bits per character and is
    emptied as three bytes whenever it holds 24 bits; 12 or 18
    remaining bits give one or two bytes, the low 4 or 2 bits being
    discarded. *)
Fixpoint decode_loop (s : jsstring) (buffer : Z) (bits : nat) : jsstring :=
  match s with
  | [] =>
      match bits with
      | 12%nat => [char (buffer / 16)]
      | 18%nat => [char (buffer / 4 / 256); char (buffer / 4 mod 256)]
      | _ => []
      end
  | c :: rest =>
      let buffer' := buffer * 64 + value_or_0 c in
      if (bits + 6 =? 24)%nat
      then char (buffer' / 65536) :: char (buffer' / 256 mod 256)
             :: char (buffer' mod 256) :: decode_loop rest 0 0
      else decode_loop rest buffer' (bits + 6)
  end.

(** [atob]; [None] is the [InvalidCharacterError] exception. *)
Definition atob (data : jsstring) : option jsstring :=
  let data := filter (fun c => negb (is_ascii_whitespace c)) data in
  let data := strip_padding data in
  if (Z.of_nat (List.length data) mod 4 =? 1) then None
  else if negb (forallb in_alphabet data) then None
  else Some (decode_loop data 0 0).

End Base64.

(** ** [utils.ts]: [encode] and [decode] *)

(** [encode]: the loop appends one character per byte, then [btoa]. *)
Definition encode (bytes : Uint8Array) : jsstring :=
  let binary :=
    fold_left (fun binary b => binary ++ [fromCharCode b]) bytes [] in
  Base64.btoa binary.

(** [decode]: [atob], then one byte per character.  [None] when [atob]
    throws. *)
Definition decode (base64 : jsstring) : option Uint8Array :=
  match Base64.atob base64 with
  | None => None
  | Some binaryString => Some (map charCodeAt_u8 binaryString)
  end.

(** ** JavaScript numbers

    The code computes with JavaScript numbers.  It is written once
    against the operations it uses, and read at two instances:
    - [binary64]: IEEE 754 double precision, what the program runs on
      (Rocq's primitive floats);
    - [exact]: rationals extended with [NaN] and the two infinities,
      where no operation rounds and there is one zero.  Universally
      quantified numeric facts are proved here. *)

Class Number (num : Type) : Type := {
  lit : Z -> num;                    (* an integer literal or a length *)
  NaN : num;
  num_add : num -> num -> num;
  num_sub : num -> num -> num;
  num_mul : num -> num -> num;
  num_div : num -> num -> num;
  Math_floor : num -> num;
  Math_max : num -> num -> num;
  Math_min : num -> num -> num;
  num_lt : num -> num -> bool;       (* [a < b]   *)
  num_le : num -> num -> bool;       (* [a <= b]  *)
  strict_eq : num -> num -> bool;    (* [a === b] *)
  isNaN : num -> bool;
  (* the integer part of a finite number, rounded toward zero *)
  truncate : num -> option Z;
  (* the value kept by a [Float32Array] element *)
  Math_fround : num -> num
}.

Declare Scope js_scope.
Delimit Scope js_scope with js.
Infix "+" := num_add : js_scope.
Infix "-" := num_sub : js_scope.
Infix "*" := num_mul : js_scope.
Infix "/" := num_div : js_scope.
Infix "<" := num_lt : js_scope.
Infix "<=" := num_le : js_scope.
Notation "a >= b" := (num_le b a) : js_scope.
Infix "===" := strict_eq (at level 70, no associativity) : js_scope.
Notation "a !== b" := (negb (strict_eq a b))
  (at level 70, no associativity) : js_scope.

(** *** Exact numbers *)

Inductive xnum : Type :=
| XNaN
| XInf (negative : bool)
| XFin (q : Q).

(** The integer part of a rational, toward zero. *)
Definition Qtrunc (q : Q) : Z := Z.quot (Qnum q) (Z.pos (Qden q)).

Module Exact.

Definition is_neg (q : Q) : bool := Qnum q <? 0.
Definition is_zero (q : Q) : bool := Qnum q =? 0.

Definition add (a b : xnum) : xnum :=
  match a, b with
  | XNaN, _ | _, XNaN => XNaN
  | XInf s, XInf t => if Bool.eqb s t then XInf s else XNaN
  | XInf s, XFin _ | XFin _, XInf s => XInf s
  | XFin p, XFin q => XFin (p + q)%Q
  end.

Definition neg (a : xnum) : xnum :=
  match a with
  | XNaN => XNaN
  | XInf s => XInf (negb s)
  | XFin q => XFin (- q)%Q
  end.

Definition sub (a b : xnum) : xnum := add a (neg b).

Definition mul (a b : xnum) : xnum :=
  match a, b with
  | XNaN, _ | _, XNaN => XNaN
  | XInf s, XInf t => XInf (xorb s t)
  | XInf s, XFin q | XFin q, XInf s =>
      if is_zero q then XNaN else XInf (xorb s (is_neg q))
  | XFin p, XFin q => XFin (p * q)%Q
  end.

Definition div (a b : xnum) : xnum :=
  match a, b with
  | XNaN, _ | _, XNaN => XNaN
  | XInf _, XInf _ => XNaN
  | XInf s, XFin q => XInf (xorb s (is_neg q))
  | XFin _, XInf _ => XFin 0
  | XFin p, XFin q =>
      if is_zero q
      then (if is_zero p then XNaN else XInf (is_neg p))
      else XFin (p / q)%Q
  end.

Definition floor (a : xnum) : xnum :=
  match a with
  | XFin q => XFin (inject_Z (Qfloor q))
  | _ => a
  end.

Definition lt (a b : xnum) : bool :=
  match a, b with
  | XNaN, _ | _, XNaN => false
  | XInf s, XInf t => s && negb t
  | XInf s, XFin _ => s
  | XFin _, XInf t => negb t
  | XFin p, XFin q => negb (Qle_bool q p)
  end.

Definition eq (a b : xnum) : bool :=
  match a, b with
  | XInf s, XInf t => Bool.eqb s t
  | XFin p, XFin q => Qeq_bool p q
  | _, _ => false
  end.

Definition le (a b : xnum) : bool := lt a b || eq a b.

Definition is_nan (a : xnum) : bool :=
  match a with XNaN => true | _ => false end.

Definition max (a b : xnum) : xnum :=
  if is_nan a || is_nan b then XNaN else if lt a b then b else a.

Definition min (a b : xnum) : xnum :=
  if is_nan a || is_nan b then XNaN else if lt b a then b else a.

Definition trunc (a : xnum) : option Z :=
  match a with
  | XFin q => Some (Qtrunc q)
  | _ => None
  end.

End Exact.

#[export] Instance exact : Number xnum := {|
  lit := fun z => XFin (inject_Z z);
  NaN := XNaN;
  num_add := Exact.add;
  num_sub := Exact.sub;
  num_mul := Exact.mul;
  num_div := Exact.div;
  Math_floor := Exact.floor;
  Math_max := Exact.max;
  Math_min := Exact.min;
  num_lt := Exact.lt;
  num_le := Exact.le;
  strict_eq := Exact.eq;
  isNaN := Exact.is_nan;
  truncate := Exact.trunc;
  Math_fround := fun a => a
|}.

(** *** Double precision *)

Module Binary64.

Definition of_Z (z : Z) : float :=
  SF2Prim (binary_normalize prec emax z 0 false).

(** The integer part, toward zero, of a finite double. *)
Definition trunc (x : float) : option Z :=
  match Prim2SF x with
  | S754_zero _ => Some 0
  | S754_finite s m e =>
      Some (cond_Zopp s
              (match e with
               | Zneg k => Z.pos m / 2 ^ Z.pos k
               | _ => Z.pos m * 2 ^ e
               end))
  | _ => None
  end.

Definition floor (x : float) : float :=
  match Prim2SF x with
  | S754_finite s m (Zneg k) =>
      let z := cond_Zopp s (Z.pos m) / 2 ^ Z.pos k in
      if (z =? 0) && s then neg_zero else of_Z z
  | _ => x
  end.

Definition max (a b : float) : float :=
  if is_nan a || is_nan b then nan
  else if PrimFloat.ltb a b then b
  else if PrimFloat.ltb b a then a
  else if get_sign a then b else a.

Definition min (a b : float) : float :=
  if is_nan a || is_nan b then nan
  else if PrimFloat.ltb b a then b
  else if PrimFloat.ltb a b then a
  else if get_sign a then a else b.

(** Rounding to single precision, to nearest, ties to even. *)
Definition fround (x : float) : float :=
  match Prim2SF x with
  | S754_finite s m e =>
      SF2Prim (binary_normalize 24 128 (cond_Zopp s (Z.pos m)) e s)
  | _ => x
  end.

End Binary64.

#[export] Instance binary64 : Number float := {|
  lit := Binary64.of_Z;
  NaN := nan;
  num_add := PrimFloat.add;
  num_sub := PrimFloat.sub;
  num_mul := PrimFloat.mul;
  num_div := PrimFloat.div;
  Math_floor := Binary64.floor;
  Math_max := Binary64.max;
  Math_min := Binary64.min;
  num_lt := PrimFloat.ltb;
  num_le := PrimFloat.leb;
  strict_eq := PrimFloat.eqb;
  isNaN := PrimFloat.is_nan;
  truncate := Binary64.trunc;
  Math_fround := Binary64.fround
|}.

(** ** Typed arrays and loops *)

Definition wrap16 (z : Z) : Z :=
  let m := z mod 65536 in if m <? 32768 then m else m - 65536.

Definition byte_of_Z (z : Z) : byte := byte_of_ascii (ascii_of_N (Z.to_N z)).
Definition Z_of_byte (b : byte) : Z := Z.of_N (Byte.to_N b).

(** The two bytes of a 16-bit element, low byte first. *)
Definition int16_bytes (v : Z) : list byte :=
  let u := v mod 65536 in [byte_of_Z (u mod 256); byte_of_Z (u / 256)].

(** The 16-bit elements of a byte buffer, low byte first; an odd last
    byte belongs to no element. *)
Fixpoint int16_elements (bytes : list byte) : list Z :=
  match bytes with
  | lo :: hi :: rest =>
      wrap16 (Z_of_byte lo + 256 * Z_of_byte hi) :: int16_elements rest
  | _ => []
  end.

(** [a[i] = v] on a typed array: a write past the end is ignored. *)
Fixpoint store {A : Type} (a : list A) (i : nat) (v : A) : list A :=
  match a, i with
  | [], _ => []
  | _ :: a', O => v :: a'
  | x :: a', S i' => x :: store a' i' v
  end.

(** [for (let i = 0; i < n; i++) body], with [n] iterations. *)
Definition for_n {S : Type} (n : nat) (body : nat -> S -> S) (s : S) : S :=
  fold_left (fun s i => body i s) (seq 0 n) s.

Section Utils.

Context {num : Type} {N : Number num}.
Local Open Scope js_scope.

Definition Float32Array := list num.
Definition Int16Array := list Z.

(** [a.length] as a number. *)
Definition len {A : Type} (a : list A) : num := lit (Z.of_nat (List.length a)).

(** The loop counter [i] as a number. *)
Definition idx (i : nat) : num := lit (Z.of_nat i).

(** A number in a boolean position: [0] and [NaN] are false. *)
Definition falsy (x : num) : bool := (x === lit 0) || isNaN x.

(** [a || b] on numbers. *)
Definition or_else (a b : num) : num := if falsy a then b else a.

(** [ToIndex], used for the length of a new typed array; [None] is a
    [RangeError]. *)
Definition ToIndex (n : num) : option nat :=
  match truncate n with
  | Some z =>
      if (0 <=? z) && (z <=? 2 ^ 53 - 1) then Some (Z.to_nat z) else None
  | None => if isNaN n then Some O else None
  end.

(** The value an [Int16Array] element keeps of a number. *)
Definition ToInt16 (x : num) : Z :=
  match truncate x with Some z => wrap16 z | None => 0 end.

(** Web IDL conversion to [unsigned long]. *)
Definition ToUint32 (x : num) : Z :=
  match truncate x with Some z => z mod 2 ^ 32 | None => 0 end.

Definition new_Float32Array (n : num) : option Float32Array :=
  match ToIndex n with
  | Some k => Some (repeat (lit 0) k)
  | None => None
  end.

(** [a[x]] read as a number, for a number [x]: an element, or
    [undefined], which arithmetic turns into [NaN]. *)
Definition elem (a : Float32Array) (x : num) : num :=
  match truncate x with
  | Some z =>
      if (lit z === x) && (0 <=? z) then nth (Z.to_nat z) a NaN else NaN
  | None => NaN
  end.

Definition elem16 (a : Int16Array) (x : num) : num :=
  match truncate x with
  | Some z =>
      if (lit z === x) && (0 <=? z)
      then match nth_error a (Z.to_nat z) with
           | Some v => lit v
           | None => NaN
           end
      else NaN
  | None => NaN
  end.

(** The number of iterations of [for (let i = 0; i < x; i++)] for a
    finite or [NaN] bound [x].  (Both loops below are reached with
    such a bound only: an infinite one makes the allocation before
    the loop throw.) *)
Definition iterations (x : num) : nat :=
  match truncate x with
  | Some z =>
      if z <? 0 then O
      else if lit z < x then S (Z.to_nat z) else Z.to_nat z
  | None => O
  end.

(** *** [resampleLinear] *)

Definition resampleLinear (inputData : Float32Array) (inputSr outputSr : num)
  : option Float32Array :=
  if inputSr === outputSr then Some inputData
  else
    let ratio := inputSr / outputSr in
    let outputLength := Math_floor (len inputData / ratio) in
    match new_Float32Array outputLength with
    | None => None
    | Some result =>
        Some (for_n (iterations outputLength)
                (fun i result =>
                   let C1 := idx i * ratio in
                   let C0 := Math_floor C1 in
                   let C2 := Math_min (C0 + lit 1) (len inputData - lit 1) in
                   if (C0 < lit 0) || (C0 >= len inputData)
                   then store result i (Math_fround (lit 0))
                   else
                     let k := C1 - C0 in
                     store result i
                       (Math_fround (elem inputData C0 * (lit 1 - k)
                                     + elem inputData C2 * k)))
                result)
    end.

(** *** [createBlob] *)

Record Blob : Type := { data : jsstring; mimeType : jsstring }.

(** The quantizing loop of [createBlob]. *)
Definition quantize (audioDataToProcess : Float32Array) : Int16Array :=
  let l := List.length audioDataToProcess in
  let int16 := repeat 0 l in
  for_n l
    (fun i int16 =>
       store int16 i
         (ToInt16 (Math_max (lit (-32768))
                     (Math_min (lit 32767)
                        (nth i audioDataToProcess NaN * lit 32768)))))
    int16.

Definition createBlob (data : Float32Array) (currentSampleRate : num)
  : option Blob :=
  let audioDataToProcess :=
    if currentSampleRate !== lit 16000
    then resampleLinear data currentSampleRate (lit 16000)
    else Some data in
  match audioDataToProcess with
  | None => None
  | Some audioDataToProcess =>
      let int16 := quantize audioDataToProcess in
      Some {| data := encode (flat_map int16_bytes int16);
              mimeType := str "audio/pcm;rate=16000" |}
  end.

(** *** The output context and its buffers (Web Audio) *)

Record AudioContext : Type := { ctx_sampleRate : num }.

Record AudioBuffer : Type := {
  buffer_sampleRate : num;
  buffer_length : nat;
  channels : list Float32Array
}.

Definition duration (b : AudioBuffer) : num :=
  idx (buffer_length b) / buffer_sampleRate b.

(** [ctx.createBuffer(numberOfChannels, length, sampleRate)]: the two
    counts are [unsigned long], the rate is a [float]; a zero count
    or a rate that is not a positive finite number is refused
    ([None]).  Implementations also bound the channel count and the
    rate from above; the caller's mono 24000 Hz is inside every such
    bound. *)
Definition createBuffer (ctx : AudioContext)
    (numberOfChannels length sampleRate : num) : option AudioBuffer :=
  let c := ToUint32 numberOfChannels in
  let n := ToUint32 length in
  let r := Math_fround sampleRate in
  match truncate r with
  | None => None
  | Some _ =>
      if (c =? 0) || (n =? 0) || negb (lit 0 < r) then None
      else Some {| buffer_sampleRate := r;
                   buffer_length := Z.to_nat n;
                   channels := repeat (repeat (lit 0) (Z.to_nat n))
                                 (Z.to_nat c) |}
  end.

(** The dequantizing loop of [decodeAudioData] for channel [c]. *)
Definition dequantize (dataInt16 : Int16Array) (numChannels numFrames : num)
    (c : nat) (channelData : Float32Array) : Float32Array :=
  for_n (iterations numFrames)
    (fun i channelData =>
       store channelData i
         (Math_fround (elem16 dataInt16 (idx i * numChannels + idx c)
                       / lit 32768)))
    channelData.

(** *** [decodeAudioData]

    [data] is a fresh array (offset 0 in its own buffer), as the only
    caller passes [decode(...)].  [None] is a rejected promise. *)
Definition decodeAudioData (data : Uint8Array) (ctx : AudioContext)
    (sampleRate numChannels : num) : option AudioBuffer :=
  let numFrames := len data / lit 2 / numChannels in
  if (numFrames === lit 0) || isNaN numFrames
  then createBuffer ctx (or_else numChannels (lit 1)) (lit 1)
         (or_else sampleRate (ctx_sampleRate ctx))
  else
    match createBuffer ctx numChannels numFrames sampleRate with
    | None => None
    | Some buffer =>
        match ToIndex (len data / lit 2) with
        | None => None
        | Some n =>
            let dataInt16 := firstn n (int16_elements data) in
            for_n (iterations numChannels)
              (fun c buffer =>
                 match buffer with
                 | None => None
                 | Some buffer =>
                     (* [buffer.getChannelData(c)] *)
                     match nth_error (channels buffer) c with
                     | None => None
                     | Some channelData =>
                         Some {| buffer_sampleRate := buffer_sampleRate buffer;
                                 buffer_length := buffer_length buffer;
                                 channels :=
                                   store (channels buffer) c
                                     (dequantize dataInt16 numChannels
                                        numFrames c channelData) |}
                     end
                 end)
              (Some buffer)
        end
    end.

End Utils.

(** ** [index.tsx]: the component and its playback scheduling *)

(** How a statement sequence ends: normally, or by a thrown exception
    (for the [async] handler, a rejected promise); either way with the
    state reached. *)
Inductive completion (S : Type) : Type :=
| Normal (s : S)
| Throw (s : S).
Arguments Normal {S} s.
Arguments Throw {S} s.

Definition state_of {S : Type} (c : completion S) : S :=
  match c with Normal s | Throw s => s end.

Definition bind {S : Type} (c : completion S) (k : S -> completion S)
  : completion S :=
  match c with Normal s => k s | Throw s => Throw s end.

Inductive Phase : Type := Created | Scheduled | Active | Finished | Cancelled.

Inductive SessionState : Type := Open | Closed.

(** The callback [reset] hands to [setTimeout]. *)
Inductive Callback : Type := ReinitSession.

(** Whether the user grants the microphone to [startRecording]. *)
Inductive Microphone : Type := Granted | Denied (message : string).

Section Component.

Context {num : Type} {N : Number num}.
Local Open Scope js_scope.

(** *** Source nodes of the output context

    Modelled from the spec: the output device is not part of the
    repository.  A node created by [createBufferSource] is identified
    by its position in the context's list of nodes.  Its life follows
    the unit state machine of the design: [Scheduled] by [start],
    [Active] when the clock reaches its start time, [Finished] at the
    end of its buffer, [Cancelled] by [stop]; nothing leaves
    [Finished] or [Cancelled]. *)

Record AudioBufferSourceNode : Type := {
  node_buffer : option (@AudioBuffer num);
  node_onended : bool;      (* the ['ended'] listener is registered *)
  node_when : option num;   (* the argument of [start] *)
  node_phase : Phase
}.

Definition new_node : AudioBufferSourceNode :=
  {| node_buffer := None; node_onended := false;
     node_when := None; node_phase := Created |}.

Definition with_buffer (b : AudioBuffer) (n : AudioBufferSourceNode) :=
  {| node_buffer := Some b; node_onended := node_onended n;
     node_when := node_when n; node_phase := node_phase n |}.

Definition with_onended (n : AudioBufferSourceNode) :=
  {| node_buffer := node_buffer n; node_onended := true;
     node_when := node_when n; node_phase := node_phase n |}.

Definition with_phase (p : Phase) (n : AudioBufferSourceNode) :=
  {| node_buffer := node_buffer n; node_onended := node_onended n;
     node_when := node_when n; node_phase := p |}.

(** [source.start(when)]; a second [start] is an [InvalidStateError]. *)
Definition node_start (when : num) (n : AudioBufferSourceNode)
  : option AudioBufferSourceNode :=
  match node_phase n with
  | Created =>
      Some {| node_buffer := node_buffer n; node_onended := node_onended n;
              node_when := Some when; node_phase := Scheduled |}
  | _ => None
  end.

(** [source.stop()]; before [start] it is an [InvalidStateError]. *)
Definition node_stop (n : AudioBufferSourceNode)
  : option AudioBufferSourceNode :=
  match node_phase n with
  | Created => None
  | Scheduled | Active => Some (with_phase Cancelled n)
  | Finished | Cancelled => Some n
  end.

Definition node_duration (n : AudioBufferSourceNode) : num :=
  match node_buffer n with
  | Some b => duration b
  | None => lit 0
  end.

(** The node when the output clock reads [now]. *)
Definition node_advance (now : num) (n : AudioBufferSourceNode)
  : AudioBufferSourceNode :=
  match node_phase n, node_when n with
  | Scheduled, Some t =>
      if t <= now
      then if t + node_duration n <= now
           then with_phase Finished n
           else with_phase Active n
      else n
  | Active, Some t =>
      if t + node_duration n <= now then with_phase Finished n else n
  | _, _ => n
  end.

(** The node has ended and its ['ended'] listener has been called. *)
Definition node_ended (n : AudioBufferSourceNode) : bool :=
  node_onended n &&
  match node_phase n with Finished | Cancelled => true | _ => false end.

(** *** The component *)

Record State : Type := {
  isRecording : bool;
  status : string;
  error : string;
  session : option SessionState;
  nextStartTime : num;
  mediaStream : bool;             (* not [null] *)
  sourceNode : bool;              (* not [null] *)
  scriptProcessorNode : bool;     (* not [null] *)
  sources : list nat;             (* the [Set], in insertion order *)
  (* the surroundings *)
  nodes : list AudioBufferSourceNode;  (* of [outputAudioContext] *)
  timers : list Callback               (* pending [setTimeout]s *)
}.

Definition set_isRecording (v : bool) (st : State) : State :=
  {| isRecording := v; status := status st; error := error st;
     session := session st; nextStartTime := nextStartTime st;
     mediaStream := mediaStream st; sourceNode := sourceNode st;
     scriptProcessorNode := scriptProcessorNode st;
     sources := sources st; nodes := nodes st; timers := timers st |}.

Definition set_status (v : string) (st : State) : State :=
  {| isRecording := isRecording st; status := v; error := error st;
     session := session st; nextStartTime := nextStartTime st;
     mediaStream := mediaStream st; sourceNode := sourceNode st;
     scriptProcessorNode := scriptProcessorNode st;
     sources := sources st; nodes := nodes st; timers := timers st |}.

Definition set_error (v : string) (st : State) : State :=
  {| isRecording := isRecording st; status := status st; error := v;
     session := session st; nextStartTime := nextStartTime st;
     mediaStream := mediaStream st; sourceNode := sourceNode st;
     scriptProcessorNode := scriptProcessorNode st;
     sources := sources st; nodes := nodes st; timers := timers st |}.

Definition set_session (v : option SessionState) (st : State) : State :=
  {| isRecording := isRecording st; status := status st; error := error st;
     session := v; nextStartTime := nextStartTime st;
     mediaStream := mediaStream st; sourceNode := sourceNode st;
     scriptProcessorNode := scriptProcessorNode st;
     sources := sources st; nodes := nodes st; timers := timers st |}.

Definition set_nextStartTime (v : num) (st : State) : State :=
  {| isRecording := isRecording st; status := status st; error := error st;
     session := session st; nextStartTime := v;
     mediaStream := mediaStream st; sourceNode := sourceNode st;
     scriptProcessorNode := scriptProcessorNode st;
     sources := sources st; nodes := nodes st; timers := timers st |}.

Definition set_capture (stream source processor : bool) (st : State)
  : State :=
  {| isRecording := isRecording st; status := status st; error := error st;
     session := session st; nextStartTime := nextStartTime st;
     mediaStream := stream; sourceNode := source;
     scriptProcessorNode := processor;
     sources := sources st; nodes := nodes st; timers := timers st |}.

Definition set_sources (v : list nat) (st : State) : State :=
  {| isRecording := isRecording st; status := status st; error := error st;
     session := session st; nextStartTime := nextStartTime st;
     mediaStream := mediaStream st; sourceNode := sourceNode st;
     scriptProcessorNode := scriptProcessorNode st;
     sources := v; nodes := nodes st; timers := timers st |}.

Definition set_nodes (v : list AudioBufferSourceNode) (st : State) : State :=
  {| isRecording := isRecording st; status := status st; error := error st;
     session := session st; nextStartTime := nextStartTime st;
     mediaStream := mediaStream st; sourceNode := sourceNode st;
     scriptProcessorNode := scriptProcessorNode st;
     sources := sources st; nodes := v; timers := timers st |}.

Definition set_timers (v : list Callback) (st : State) : State :=
  {| isRecording := isRecording st; status := status st; error := error st;
     session := session st; nextStartTime := nextStartTime st;
     mediaStream := mediaStream st; sourceNode := sourceNode st;
     scriptProcessorNode := scriptProcessorNode st;
     sources := sources st; nodes := nodes st; timers := v |}.

(** [Set.prototype.add] and [Set.prototype.delete]. *)
Definition Set_add (x : nat) (s : list nat) : list nat :=
  if existsb (Nat.eqb x) s then s else s ++ [x].

Definition Set_delete (x : nat) (s : list nat) : list nat :=
  filter (fun y => negb (Nat.eqb x y)) s.

(** A method call on the node [source]; [None] when it throws. *)
Definition on_node (source : nat)
    (f : AudioBufferSourceNode -> option AudioBufferSourceNode)
    (st : State) : completion State :=
  match nth_error (nodes st) source with
  | None => Throw st
  | Some n =>
      match f n with
      | None => Throw st
      | Some n' => Normal (set_nodes (store (nodes st) source n') st)
      end
  end.

(** [outputAudioContext = new AudioContext({sampleRate: 24000})]. *)
Definition outputAudioContext : AudioContext :=
  {| ctx_sampleRate := lit 24000 |}.

(** The field initialisers of the class. *)
Definition fields : State :=
  {| isRecording := false; status := ""; error := "";
     session := None; nextStartTime := lit 0;
     mediaStream := false; sourceNode := false;
     scriptProcessorNode := false;
     sources := []; nodes := []; timers := [] |}.

(** [initAudio], with the reading of [outputAudioContext.currentTime]. *)
Definition initAudio (currentTime : num) (st : State) : State :=
  set_nextStartTime currentTime st.

Definition updateStatus (msg : string) (st : State) : State :=
  set_error "" (set_status msg st).

Definition updateError (msg : string) (st : State) : State :=
  set_error msg st.

(** The constructor: [initClient] calls [initAudio], then starts
    [initSession]. *)
Definition constructed (currentTime : num) : State :=
  initAudio currentTime fields.

(** The audio a server message carries, and its interruption flag. *)
Record LiveServerMessage : Type := {
  inlineData : option jsstring;   (* [...parts[0]?.inlineData.data] *)
  interrupted : bool
}.

(** Lines 133 to 142: a source node for the decoded buffer is created,
    started at [nextStartTime] and added to [sources]. *)
Definition play (audioBuffer : AudioBuffer) (st : State)
  : completion State :=
  let source := List.length (nodes st) in
  let st := set_nodes (nodes st ++ [new_node]) st in
  bind (on_node source (fun n => Some (with_buffer audioBuffer n)) st)
    (fun st =>
  (* [source.connect(this.outputNode)] changes nothing modelled here *)
  bind (on_node source (fun n => Some (with_onended n)) st) (fun st =>
  bind (on_node source (node_start (nextStartTime st)) st) (fun st =>
  let st :=
    set_nextStartTime (nextStartTime st + duration audioBuffer) st in
  Normal (set_sources (Set_add source (sources st)) st)))).

(** Lines 122 to 125 and 133 to 142: what the handler does with a
    decoded buffer (the design's [onChunkDecoded]). *)
Definition onChunkDecoded (currentTime : num) (audioBuffer : AudioBuffer)
    (st : State) : completion State :=
  let st :=
    set_nextStartTime (Math_max (nextStartTime st) currentTime) st in
  play audioBuffer st.

(** Lines 121 to 143, the branch [if (audio)]: [nextStartTime] is
    raised to the clock before the payload is decoded. *)
Definition onmessage_audio (currentTime : num) (data : jsstring)
    (st : State) : completion State :=
  let st :=
    set_nextStartTime (Math_max (nextStartTime st) currentTime) st in
  match decode data with
  | None => Throw st
  | Some bytes =>
      match decodeAudioData bytes outputAudioContext (lit 24000) (lit 1) with
      | None => Throw st
      | Some audioBuffer => play audioBuffer st
      end
  end.

(** Lines 147 to 150: the loop over [this.sources.values()].  Only the
    element being visited is deleted, so the elements visited are
    those of the set when the loop starts. *)
Fixpoint stop_sources (l : list nat) (st : State) : completion State :=
  match l with
  | [] => Normal st
  | source :: rest =>
      bind (on_node source node_stop st) (fun st =>
      stop_sources rest
        (set_sources (Set_delete source (sources st)) st))
  end.

(** Lines 145 to 152, the branch [if (interrupted)]. *)
Definition onmessage_interrupted (st : State) : completion State :=
  bind (stop_sources (sources st) st) (fun st =>
  Normal (set_nextStartTime (lit 0) st)).

(** The [onmessage] callback; [currentTime] is the reading of
    [outputAudioContext.currentTime] it makes. *)
Definition onmessage (currentTime : num) (message : LiveServerMessage)
    (st : State) : completion State :=
  bind (match inlineData message with
        | Some data => onmessage_audio currentTime data st
        | None => Normal st
        end)
    (fun st =>
  if interrupted message then onmessage_interrupted st else Normal st).

(** [stopRecording].  [inputAudioContext] is never [null], so the
    early return of its first lines is not taken. *)
Definition stopRecording (st : State) : State :=
  let inputAudioContext := true in
  if negb (isRecording st) && negb (mediaStream st)
     && negb inputAudioContext
     && (negb (mediaStream st) && negb (sourceNode st)
         && negb (scriptProcessorNode st))
  then updateStatus "Recording already stopped or not started." st
  else
    let st := updateStatus "Stopping recording..." st in
    let st := set_isRecording false st in
    let st := set_capture false false false st in
    updateStatus "Recording stopped. Click Start to begin again." st.

(** [startRecording], with the outcome of [getUserMedia]. *)
Definition startRecording (mic : Microphone) (st : State) : State :=
  if isRecording st then st
  else
    let st := updateStatus "Requesting microphone access..." st in
    let st := set_error "" st in
    match mic with
    | Granted =>
        let st :=
          updateStatus "Microphone access granted. Starting capture..." st in
        let st := set_capture true true true st in
        let st := set_isRecording true st in
        updateStatus "🔴 Recording... Capturing PCM chunks." st
    | Denied message =>
        let st := updateError ("Error starting recording: " ++ message) st in
        stopRecording st
    end.

(** [reset]. *)
Definition reset (st : State) : State :=
  let st := stopRecording st in
  let st :=
    match session st with
    | Some _ => set_session (Some Closed) st
    | None => st
    end in
  set_timers (timers st ++ [ReinitSession]) st.

(** A pending timer fires: [initSession] starts connecting and the
    status is updated. *)
Definition timeout (st : State) : State :=
  match timers st with
  | [] => st
  | ReinitSession :: rest =>
      updateStatus "Session cleared and reinitialized."
        (set_timers rest st)
  end.

(** [initSession] once [connect] has answered. *)
Definition connected (st : State) : State :=
  updateStatus "Opened" (set_session (Some Open) st).

Definition connect_failed (message : string) (st : State) : State :=
  updateError ("Error initializing session: " ++ message) st.

(** The output clock reads [now]: nodes advance, and the ['ended']
    listeners of the nodes that have ended delete them from
    [sources]. *)
Definition tick (now : num) (st : State) : State :=
  let nodes' := map (node_advance now) (nodes st) in
  let ended (source : nat) :=
    match nth_error nodes' source with
    | Some n => node_ended n
    | None => false
    end in
  set_sources (filter (fun source => negb (ended source)) (sources st))
    (set_nodes nodes' st).

(** What can happen to the component. *)
Inductive Event : Type :=
| EvMessage (currentTime : num) (message : LiveServerMessage)
| EvTick (now : num)
| EvStart (mic : Microphone)
| EvStop
| EvReset
| EvTimeout
| EvConnected
| EvConnectFailed (message : string).

Definition step (st : State) (e : Event) : State :=
  match e with
  | EvMessage currentTime message =>
      state_of (onmessage currentTime message st)
  | EvTick now => tick now st
  | EvStart mic => startRecording mic st
  | EvStop => stopRecording st
  | EvReset => reset st
  | EvTimeout => timeout st
  | EvConnected => connected st
  | EvConnectFailed message => connect_failed message st
  end.

Definition run (st : State) (trace : list Event) : State :=
  fold_left step trace st.

(** The phase of a source node, if the node exists. *)
Definition phase_of (source : nat) (st : State) : option Phase :=
  option_map node_phase (nth_error (nodes st) source).

(** The states the component goes through. *)
Inductive reachable : State -> Prop :=
| reach_init : forall currentTime, reachable (constructed currentTime)
| reach_step : forall st e, reachable st -> reachable (step st e).

(** A live unit: a started node that has not ended, whose ['ended']
    listener is registered.  Every member of [sources] is one. *)
Definition live (st : State) (source : nat) : Prop :=
  exists n, nth_error (nodes st) source = Some n
            /\ node_onended n = true
            /\ (node_phase n = Scheduled \/ node_phase n = Active).

Definition sources_live (st : State) : Prop :=
  forall source, In source (sources st) -> live st source.

End Component.

(** ** Notions used by the statements *)

(** Equality of exact numbers: rationals as fractions of equal value. *)
Definition xeq (a b : xnum) : Prop :=
  match a, b with
  | XFin p, XFin q => (p == q)%Q
  | XInf s, XInf t => s = t
  | XNaN, XNaN => True
  | _, _ => False
  end.

Infix "=x=" := xeq (at level 70, no associativity).

(** A finite exact number of value [q]. *)
Definition has_value (a : xnum) (q : Q) : Prop := a =x= XFin q.

(** Saturation to the 16-bit range. *)
Definition clamp16 (z : Z) : Z := Z.max (-32768) (Z.min 32767 z).

(** The design's words for the quantizer, to compare with the code's:
    [round(s * 32768)] clamped to [-32768, 32767], with [round] to the
    nearest integer (halves upward, as [Math.round]). *)
Definition round_nearest (q : Q) : Z := Qfloor (q + (1 # 2)).

Definition spec_quantize (s : Q) : Z := clamp16 (round_nearest (s * 32768)).

(** A silent mono buffer of [frames] frames, as [createBuffer] makes
    it. *)
Definition silence {num : Type} {N : Number num} (rate : num) (frames : nat)
  : AudioBuffer :=
  {| buffer_sampleRate := rate; buffer_length := frames;
     channels := [repeat (lit 0) frames] |}.

(** The start times given to the source nodes so far. *)
Definition start_times {num : Type} (st : @State num) : list (option num) :=
  map node_when (nodes st).

(** The component, in double precision, after one message carrying
    three zero bytes of audio (one frame) at clock reading 0. *)
Definition one_unit_state : @State float :=
  step (constructed 0%float)
    (EvMessage 0%float {| inlineData := Some (str "AAAA");
                          interrupted := false |}).

(** The design's words for [reset], to compare with the code's: the
    live units are stopped and cleared as by an interruption, and
    [nextStartTime] is set to the clock's reading. *)
Definition spec_reset {num : Type} {N : Number num} (currentTime : num)
    (st : @State num) : @State num :=
  set_nextStartTime currentTime (state_of (onmessage_interrupted st)).

(** Linear interpolation in a list of rationals at the position [pos]:
    between the sample at [floor(pos)] and the next one, the last
    sample standing for a next one that is missing. *)
Definition interpolate (qs : list Q) (pos : Q) : Q :=
  let lo := Qfloor pos in
  let hi := Z.min (lo + 1) (Z.of_nat (List.length qs) - 1) in
  let frac := (pos - inject_Z lo)%Q in
  (nth (Z.to_nat lo) qs 0 * (1 - frac) + nth (Z.to_nat hi) qs 0 * frac)%Q.

(** What the quantizer makes of an exact number, finite or not. *)
Definition quantized (x : xnum) : Z :=
  match x with
  | XNaN => 0
  | XInf negative => if negative then -32768 else 32767
  | XFin q => clamp16 (Qtrunc (q * 32768))
  end.

(** ** [index.tsx]: the capture callback and the rendered controls *)

(** What the [onaudioprocess] callback set by [startRecording] does
    with a capture buffer: nothing, a call of
    [session.sendRealtimeInput({media: ...})], or an exception. *)
Inductive Capture : Type :=
| NotSent
| SendRealtimeInput (media : Blob)
| CaptureThrew.

(** [onaudioprocess], with the channel data of the event's input
    buffer and [inputAudioContext.sampleRate]. *)
Definition onaudioprocess {num : Type} {N : Number num}
    (st : @State num) (pcmData : list num) (sampleRate : num) : Capture :=
  if negb (isRecording st) then NotSent
  else
    match session st with
    | None => CaptureThrew          (* [this.session] is [undefined] *)
    | Some _ =>
        match createBlob pcmData sampleRate with
        | None => CaptureThrew
        | Some blob => SendRealtimeInput blob
        end
    end.

(** What [render] shows of the state: which buttons are disabled, and
    the text of the status line. *)
Record Rendered : Type := {
  resetButton_disabled : bool;
  startButton_disabled : bool;
  stopButton_disabled : bool;
  status_text : string
}.

Definition render {num : Type} (st : @State num) : Rendered :=
  {| resetButton_disabled := isRecording st;
     startButton_disabled := isRecording st;
     stopButton_disabled := negb (isRecording st);
     status_text :=
       match error st with
       | EmptyString => status st
       | _ => ("Error: " ++ error st)%string
       end |}.

(** An event that starts a recording: a start the user grants. *)
Definition grants {num : Type} (e : @Event num) : bool :=
  match e with EvStart Granted => true | _ => false end.

(** Every source node that is scheduled or playing is a member of
    [sources]. *)
Definition live_in_sources {num : Type} (st : @State num) : Prop :=
  forall source n,
    nth_error (nodes st) source = Some n ->
    node_phase n = Scheduled \/ node_phase n = Active ->
    In source (sources st).

(* ================================================================= *)
(** * Part II — properties                                            *)
(* ================================================================= *)

Example encode_Man :
  encode ["M"%byte; "a"%byte; "n"%byte] = str "TWFu"
  /\ encode ["M"%byte; "a"%byte] = str "TWE="
  /\ encode ["M"%byte] = str "TQ=="
  /\ decode (str "TWE=") = Some ["M"%byte; "a"%byte]
  /\ decode (str " T Q") = Some ["M"%byte]
  /\ decode (str "TQ=") = None
  /\ decode (str "T") = None.
Proof. vm_compute. repeat split. Qed.

Example binary64_checks :
  Math_floor 2.75%float = 2%float
  /\ Math_floor (-2.5)%float = (-3)%float
  /\ Math_floor (-0.5)%float = (-1)%float
  /\ Math_floor 0.5%float = 0%float
  /\ Math_floor 0x1p+600%float = 0x1p+600%float
  /\ lit 44100 = 44100%float
  /\ lit (-32768) = (-32768)%float
  /\ truncate (-2.75)%float = Some (-2)
  /\ truncate 1e20%float = Some 100000000000000000000
  /\ truncate infinity = None
  /\ Math_fround 0x1.999999999999ap-4%float = 0x1.99999ap-4%float
  /\ Math_fround 0x1p+128%float = infinity
  /\ Math_fround 0x1p-151%float = 0%float
  /\ Math_fround 16777217%float = 16777216%float
  /\ Math_fround 0.5%float = 0.5%float
  /\ Math_max 0%float (-0)%float = 0%float
  /\ Math_min 0%float (-0)%float = (-0)%float
  /\ Math_max 1%float nan = nan.
Proof. vm_compute. repeat split. Qed.

(** ** Codec round trip *)

Section ListInd3.
Variable A : Type.
Variable P : list A -> Prop.
Hypothesis P0 : P [].
Hypothesis P1 : forall a, P [a].
Hypothesis P2 : forall a b, P [a; b].
Hypothesis P3 : forall a b c l, P l -> P (a :: b :: c :: l).

Lemma list_ind3 : forall l, P l.
Proof.
  assert (H : forall l, P l /\ (forall a, P (a :: l))
                        /\ (forall a b, P (a :: b :: l))).
  { induction l as [|x l [IH0 [IH1 IH2]]].
    - repeat split; auto.
    - repeat split; auto. }
  intro l. apply H.
Qed.
End ListInd3.

Module Base64Facts.
Import Base64.

Lemma code_range c : 0 <= code c < 256.
Proof.
  unfold code. pose proof (N_ascii_bounded c). lia.
Qed.

Lemma char_code c : char (code c) = c.
Proof.
  unfold char, code. rewrite N2Z.id. apply ascii_N_embedding.
Qed.

Lemma value_digit v : 0 <= v < 64 -> value (digit v) = Some v.
Proof.
  intros Hv.
  assert (E : exists n, v = Z.of_nat n /\ (n < 64)%nat).
  { exists (Z.to_nat v). lia. }
  destruct E as (n & -> & Hn).
  do 64 (destruct n as [|n]; [reflexivity|]). lia.
Qed.

Lemma in_alphabet_digit v : 0 <= v < 64 -> in_alphabet (digit v) = true.
Proof.
  intros Hv. unfold in_alphabet. now rewrite value_digit.
Qed.

Lemma value_or_0_digit v : 0 <= v < 64 -> value_or_0 (digit v) = v.
Proof.
  intros Hv. unfold value_or_0. now rewrite value_digit.
Qed.

Lemma alphabet_plain c :
  in_alphabet c = true ->
  is_ascii_whitespace c = false /\ Ascii.eqb c pad = false.
Proof.
  destruct c as [[] [] [] [] [] [] [] []]; vm_compute; intros H;
    first [discriminate H | split; reflexivity].
Qed.

(** [btoa] without its padding, and the padding alone. *)
Fixpoint unpadded (s : jsstring) : jsstring :=
  match s with
  | [] => []
  | [a] =>
      let n := code a * 65536 in
      [digit (n / 262144); digit (n / 4096 mod 64)]
  | [a; b] =>
      let n := code a * 65536 + code b * 256 in
      [digit (n / 262144); digit (n / 4096 mod 64); digit (n / 64 mod 64)]
  | a :: b :: c :: rest =>
      let n := code a * 65536 + code b * 256 + code c in
      digit (n / 262144) :: digit (n / 4096 mod 64)
        :: digit (n / 64 mod 64) :: digit (n mod 64) :: unpadded rest
  end.

Fixpoint padding (s : jsstring) : jsstring :=
  match s with
  | [] => []
  | [a] => [pad; pad]
  | [a; b] => [pad]
  | a :: b :: c :: rest => padding rest
  end.

Lemma btoa_split s : btoa s = unpadded s ++ padding s.
Proof.
  induction s as [| a | a b | a b c s IH] using list_ind3; try reflexivity.
  cbn [btoa unpadded padding]. cbv zeta. now rewrite IH.
Qed.

Ltac digit_bounds :=
  repeat match goal with
    | |- context [code ?c] =>
        lazymatch goal with
        | _ : 0 <= code c < 256 |- _ => fail
        | _ => pose proof (code_range c)
        end
    end;
  try (apply in_alphabet_digit);
  try (Z.div_mod_to_equations; lia).

Lemma unpadded_alphabet s : forallb in_alphabet (unpadded s) = true.
Proof.
  induction s as [| a | a b | a b c s IH] using list_ind3;
    cbn [unpadded forallb]; cbv zeta; rewrite ?IH, ?andb_true_r;
    repeat (rewrite in_alphabet_digit; [cbn [andb]|digit_bounds]);
    reflexivity.
Qed.

Lemma btoa_length s : Z.of_nat (List.length (btoa s)) mod 4 = 0.
Proof.
  induction s as [| a | a b | a b c s IH] using list_ind3; try reflexivity.
  cbn [btoa List.length]. cbv zeta. cbn [List.length].
  rewrite !Nat2Z.inj_succ.
  Z.div_mod_to_equations. lia.
Qed.

Lemma unpadded_length s : Z.of_nat (List.length (unpadded s)) mod 4 <> 1.
Proof.
  induction s as [| a | a b | a b c s IH] using list_ind3;
    cbn [unpadded List.length]; cbv zeta; cbn [List.length];
    rewrite ?Nat2Z.inj_succ; Z.div_mod_to_equations; lia.
Qed.

Lemma btoa_no_whitespace s :
  filter (fun c => negb (is_ascii_whitespace c)) (btoa s) = btoa s.
Proof.
  assert (Hd : forall v, 0 <= v < 64 ->
                         negb (is_ascii_whitespace (digit v)) = true).
  { intros v Hv.
    destruct (alphabet_plain (digit v) (in_alphabet_digit Hv)) as [-> _].
    reflexivity. }
  induction s as [| a | a b | a b c s IH] using list_ind3;
    cbn [btoa filter]; cbv zeta;
    repeat (rewrite Hd; [|digit_bounds]); try rewrite IH; reflexivity.
Qed.

Lemma last_not_pad u c r :
  forallb in_alphabet u = true -> rev u = c :: r -> Ascii.eqb c pad = false.
Proof.
  intros Hu Hr. rewrite forallb_forall in Hu.
  apply alphabet_plain, Hu, in_rev. rewrite Hr. now left.
Qed.

Lemma drop_last_pad_plain u :
  forallb in_alphabet u = true -> drop_last_pad u = u.
Proof.
  intros Hu. unfold drop_last_pad.
  destruct (rev u) as [|c r] eqn:Hr; [reflexivity|].
  now rewrite (last_not_pad _ Hu Hr).
Qed.

Lemma strip_padding_btoa s : strip_padding (btoa s) = unpadded s.
Proof.
  unfold strip_padding. rewrite btoa_length. cbn [Z.eqb].
  rewrite btoa_split.
  pose proof (unpadded_alphabet s) as Hu.
  assert (Hp : padding s = [] \/ padding s = [pad]
               \/ padding s = [pad; pad]).
  { induction s as [| a | a b | a b c s IH] using list_ind3; cbn; auto.
    apply IH, unpadded_alphabet. }
  destruct Hp as [-> | [-> | ->]]; rewrite rev_app_distr; cbn [rev app].
  - rewrite app_nil_r.
    destruct (rev (unpadded s)) as [|c r] eqn:Hr; [reflexivity|].
    now rewrite (last_not_pad _ Hu Hr).
  - cbn. rewrite rev_involutive. now apply drop_last_pad_plain.
  - cbn. unfold drop_last_pad.
    rewrite rev_app_distr, !rev_involutive. cbn.
    now rewrite rev_involutive.
Qed.

Lemma decode_loop_unpadded s : decode_loop (unpadded s) 0 0 = s.
Proof.
  induction s as [| a | a b | a b c s IH] using list_ind3;
    cbn [unpadded decode_loop Nat.add Nat.eqb]; cbv zeta;
    [ reflexivity | | | rewrite IH ];
    repeat (rewrite value_or_0_digit; [|digit_bounds]);
    repeat f_equal;
    match goal with
    | |- char ?z = ?x =>
        replace z with (code x); [apply char_code | digit_bounds]
    end.
Qed.

Lemma atob_btoa s : atob (btoa s) = Some s.
Proof.
  unfold atob. rewrite btoa_no_whitespace, strip_padding_btoa.
  destruct (Z.eqb_spec (Z.of_nat (List.length (unpadded s)) mod 4) 1) as [E|_].
  - now apply unpadded_length in E.
  - now rewrite unpadded_alphabet, decode_loop_unpadded.
Qed.

End Base64Facts.

Lemma encode_binary bytes :
  fold_left (fun binary b => binary ++ [fromCharCode b]) bytes []
  = map fromCharCode bytes.
Proof.
  enough (H : forall acc,
             fold_left (fun binary b => binary ++ [fromCharCode b]) bytes acc
             = acc ++ map fromCharCode bytes) by apply (H []).
  induction bytes as [|b bytes IH]; intro acc; cbn.
  - now rewrite app_nil_r.
  - rewrite IH, <- app_assoc. reflexivity.
Qed.

Lemma decode_encode bytes : decode (encode bytes) = Some bytes.
Proof.
  unfold decode, encode.
  rewrite encode_binary, Base64Facts.atob_btoa, map_map.
  f_equal. rewrite <- (map_id bytes) at 2.
  apply map_ext. intro b. apply byte_of_ascii_of_byte.
Qed.

(** C2. Round trip of the codec: decoding the text produced by
    [encode] succeeds and returns exactly the original bytes, for every
    byte sequence. *)
Theorem C2_decode_encode_roundtrip :
  forall b : Uint8Array, decode (encode b) = Some b.
Proof. exact decode_encode. Qed.

(** ** Typed-array lemmas *)

Lemma store_length {A : Type} (a : list A) i v :
  List.length (store a i v) = List.length a.
Proof.
  revert i; induction a as [|x a IH]; intros [|i]; cbn; auto.
Qed.

Lemma nth_error_store_eq {A : Type} (a : list A) i v :
  (i < List.length a)%nat -> nth_error (store a i v) i = Some v.
Proof.
  revert i; induction a as [|x a IH]; intros [|i] H; cbn in *;
    try lia; auto.
  apply IH. lia.
Qed.

Lemma nth_error_store_neq {A : Type} (a : list A) i j v :
  i <> j -> nth_error (store a i v) j = nth_error a j.
Proof.
  revert i j; induction a as [|x a IH]; intros [|i] [|j] H; cbn;
    try congruence; auto.
Qed.

Lemma store_last {A : Type} (a : list A) x v :
  store (a ++ [x]) (List.length a) v = a ++ [v].
Proof.
  induction a as [|y a IH]; cbn; [reflexivity|]. now rewrite IH.
Qed.

Lemma nth_error_last {A : Type} (a : list A) x :
  nth_error (a ++ [x]) (List.length a) = Some x.
Proof.
  rewrite nth_error_app2, Nat.sub_diag by lia. reflexivity.
Qed.

(** ** The scheduler *)

Section Scheduler.

Context {num : Type} {N : Number num}.
Local Open Scope js_scope.

(** The node [play] leaves for a buffer started at [when]. *)
Definition scheduled_node (b : @AudioBuffer num) (when : num)
  : AudioBufferSourceNode :=
  {| node_buffer := Some b; node_onended := true;
     node_when := Some when; node_phase := Scheduled |}.

Lemma play_eq (b : @AudioBuffer num) (st : @State num) :
  play b st =
  Normal
    (set_sources (Set_add (List.length (nodes st)) (sources st))
       (set_nextStartTime (nextStartTime st + duration b)
          (set_nodes (nodes st ++ [scheduled_node b (nextStartTime st)])
             st))).
Proof.
  unfold play, on_node, bind. cbn.
  rewrite nth_error_last. cbn. rewrite store_last.
  rewrite nth_error_last. cbn. rewrite store_last.
  rewrite nth_error_last. cbn. rewrite store_last.
  reflexivity.
Qed.

Lemma onChunkDecoded_eq now (b : @AudioBuffer num) (st : @State num) :
  onChunkDecoded now b st =
  let startTime := Math_max (nextStartTime st) now in
  Normal
    (set_sources (Set_add (List.length (nodes st)) (sources st))
       (set_nextStartTime (startTime + duration b)
          (set_nodes (nodes st ++ [scheduled_node b startTime]) st))).
Proof.
  unfold onChunkDecoded. rewrite play_eq. reflexivity.
Qed.

(** *** A method call on one node *)

Lemma phase_of_set_sources v (st : @State num) x :
  phase_of x (set_sources v st) = phase_of x st.
Proof. reflexivity. Qed.

Lemma phase_of_set_nextStartTime v (st : @State num) x :
  phase_of x (set_nextStartTime v st) = phase_of x st.
Proof. reflexivity. Qed.

Lemma on_node_cases source f (st : @State num) :
  on_node source f st = Throw st
  \/ exists n n',
      nth_error (nodes st) source = Some n /\ f n = Some n'
      /\ on_node source f st
         = Normal (set_nodes (store (nodes st) source n') st).
Proof.
  unfold on_node.
  destruct (nth_error (nodes st) source) as [n|] eqn:E; [|now left].
  destruct (f n) as [n'|] eqn:F; [|now left].
  right. now exists n, n'.
Qed.

Lemma nth_error_store_node (st : @State num) source n n' x :
  nth_error (nodes st) source = Some n ->
  nth_error (store (nodes st) source n') x
  = if Nat.eqb source x then Some n' else nth_error (nodes st) x.
Proof.
  intros E. destruct (Nat.eqb_spec source x) as [<-|D].
  - apply nth_error_store_eq. apply nth_error_Some. congruence.
  - now apply nth_error_store_neq.
Qed.

(** *** The stop sweep *)

Definition started (st : @State num) (source : nat) : Prop :=
  exists p, phase_of source st = Some p /\ p <> Created.

Lemma live_started (st : @State num) x : live st x -> started st x.
Proof.
  intros (n & E & _ & Hp). unfold started, phase_of. rewrite E. cbn.
  destruct Hp as [-> | ->]; eexists; split; eauto; discriminate.
Qed.

Lemma stop_one (st : @State num) x :
  started st x ->
  exists st',
    on_node x node_stop st = Normal st'
    /\ sources st' = sources st
    /\ nextStartTime st' = nextStartTime st
    /\ (forall y, y <> x -> phase_of y st' = phase_of y st)
    /\ (forall y, started st y -> started st' y)
    /\ (forall y, phase_of y st = Some Cancelled ->
                  phase_of y st' = Some Cancelled)
    /\ (live st x -> phase_of x st' = Some Cancelled).
Proof.
  intros (p & Hp & Hc). unfold phase_of in Hp.
  destruct (nth_error (nodes st) x) as [n|] eqn:E; [|discriminate].
  cbn in Hp. injection Hp as Hp.
  assert (Hs : exists n', node_stop n = Some n'
                 /\ node_phase n' <> Created
                 /\ (node_phase n = Cancelled -> node_phase n' = Cancelled)
                 /\ (node_phase n = Scheduled \/ node_phase n = Active ->
                     node_phase n' = Cancelled)).
  { unfold node_stop. rewrite Hp.
    destruct p; try congruence; eexists; split; try reflexivity;
      cbn; rewrite ?Hp; repeat split; try discriminate; auto;
      intros [?|?]; congruence. }
  destruct Hs as (n' & Hn' & Hc' & Hk & Hl).
  exists (set_nodes (store (nodes st) x n') st).
  unfold on_node. rewrite E, Hn'.
  repeat split; auto.
  - intros y Hy. unfold phase_of. cbn.
    erewrite nth_error_store_node by exact E.
    destruct (Nat.eqb_spec x y); congruence.
  - intros y (q & Hq & Hqc). unfold started, phase_of in *. cbn.
    erewrite nth_error_store_node by exact E.
    destruct (Nat.eqb_spec x y) as [->|]; cbn; eauto.
  - intros y Hy. unfold phase_of in *. cbn.
    erewrite nth_error_store_node by exact E.
    destruct (Nat.eqb_spec x y) as [<-|]; cbn; auto.
    rewrite E in Hy. cbn in Hy. injection Hy as Hy. f_equal. auto.
  - intros (m & Em & _ & Hm). unfold phase_of. cbn.
    erewrite nth_error_store_node by exact E. rewrite Nat.eqb_refl. cbn.
    f_equal. apply Hl. congruence.
Qed.

Lemma filter_delete x l s :
  filter (fun y => negb (existsb (Nat.eqb y) l)) (Set_delete x s)
  = filter (fun y => negb (existsb (Nat.eqb y) (x :: l))) s.
Proof.
  unfold Set_delete.
  induction s as [|y s IHs]; [reflexivity|].
  cbn [filter existsb]. rewrite (Nat.eqb_sym x y).
  destruct (Nat.eqb y x); cbn [negb orb filter]; [exact IHs|].
  destruct (existsb (Nat.eqb y) l); cbn [negb]; [exact IHs|].
  now rewrite IHs.
Qed.

Lemma filter_all_members (s l : list nat) :
  (forall y, In y s -> In y l) ->
  filter (fun y => negb (existsb (Nat.eqb y) l)) s = [].
Proof.
  induction s as [|y s IHs]; intros Hin; cbn; [reflexivity|].
  assert (E : existsb (Nat.eqb y) l = true).
  { apply existsb_exists. exists y. split; [|apply Nat.eqb_refl].
    apply Hin. now left. }
  rewrite E. cbn. apply IHs. intros z Hz. apply Hin. now right.
Qed.

Lemma stop_sources_spec l : forall st : @State num,
  (forall x, In x l -> started st x) ->
  exists st',
    stop_sources l st = Normal st'
    /\ sources st'
       = filter (fun y => negb (existsb (Nat.eqb y) l)) (sources st)
    /\ nextStartTime st' = nextStartTime st
    /\ (forall y, phase_of y st = Some Cancelled ->
                  phase_of y st' = Some Cancelled)
    /\ (forall x, In x l -> live st x -> phase_of x st' = Some Cancelled).
Proof.
  induction l as [|x l IH]; intros st Hl.
  - exists st. cbn. repeat split; auto.
    + induction (sources st) as [|y s IHs]; cbn; congruence.
    + intros x [].
  - destruct (stop_one (Hl x (or_introl eq_refl)))
      as (st1 & E1 & Hs1 & Ht1 & Hne1 & Hst1 & Hc1 & Hx1).
    destruct (IH (set_sources (Set_delete x (sources st1)) st1))
      as (st2 & E2 & Hs2 & Ht2 & Hc2 & Hx2).
    { intros y Hy. apply (Hst1 y). apply Hl. now right. }
    exists st2. cbn [stop_sources]. rewrite E1. cbn [bind]. rewrite E2.
    repeat split.
    + rewrite Hs2. cbn [sources set_sources Set_delete]. rewrite Hs1.
      apply filter_delete.
    + rewrite Ht2. cbn. exact Ht1.
    + intros y Hy. apply Hc2. rewrite phase_of_set_sources. now apply Hc1.
    + intros y [<-|Hy] Hlive.
      * apply Hc2. rewrite phase_of_set_sources. now apply Hx1.
      * destruct (Nat.eq_dec y x) as [->|D].
        -- apply Hc2. rewrite phase_of_set_sources. now apply Hx1.
        -- apply Hx2; [exact Hy|].
           destruct Hlive as (n & En & Hn).
           assert (Hp : phase_of y st1 = phase_of y st) by now apply Hne1.
           unfold live. cbn [nodes set_sources].
           unfold phase_of in Hp. rewrite En in Hp.
           destruct (nth_error (nodes st1) y) as [m|] eqn:Em;
             [|discriminate].
           (* the node itself is unchanged *)
           assert (Hm : nth_error (nodes st1) y = nth_error (nodes st) y).
           { destruct (on_node_cases x node_stop st)
               as [Ht|(a & a' & Ea & Fa & Eo)].
             - rewrite Ht in E1. discriminate.
             - rewrite Eo in E1. injection E1 as <-. cbn.
               now apply nth_error_store_neq. }
           rewrite Em, En in Hm. injection Hm as ->. now exists n.
Qed.

Lemma interrupted_spec (st : @State num) :
  sources_live st ->
  exists st',
    onmessage_interrupted st = Normal st'
    /\ sources st' = []
    /\ nextStartTime st' = lit 0
    /\ (forall y, phase_of y st = Some Cancelled ->
                  phase_of y st' = Some Cancelled)
    /\ (forall x, In x (sources st) -> phase_of x st' = Some Cancelled).
Proof.
  intros Hl.
  destruct (@stop_sources_spec (sources st) st)
    as (st1 & E1 & Hs1 & Ht1 & Hc1 & Hx1).
  { intros x Hx. apply live_started. now apply Hl. }
  exists (set_nextStartTime (lit 0) st1).
  unfold onmessage_interrupted. rewrite E1. cbn [bind].
  split; [reflexivity|]. split; [|split; [reflexivity|split]].
  - cbn [sources set_nextStartTime]. rewrite Hs1.
    apply filter_all_members. auto.
  - intros y Hy. rewrite phase_of_set_nextStartTime. now apply Hc1.
  - intros x Hx. rewrite phase_of_set_nextStartTime.
    apply Hx1; [exact Hx | now apply Hl].
Qed.

(** *** What leaves the scheduler alone *)

(** The scheduler's part of the state. *)
Definition scheduler_of (st : @State num) :=
  (nextStartTime st, sources st, nodes st).

Lemma stopRecording_frame (st : @State num) :
  scheduler_of (stopRecording st) = scheduler_of st.
Proof.
  unfold stopRecording.
  destruct (isRecording st), (mediaStream st), (sourceNode st),
    (scriptProcessorNode st); reflexivity.
Qed.

Lemma startRecording_frame mic (st : @State num) :
  scheduler_of (startRecording mic st) = scheduler_of st.
Proof.
  unfold startRecording.
  destruct (isRecording st); [reflexivity|].
  destruct mic; [reflexivity|].
  now rewrite stopRecording_frame.
Qed.

Lemma reset_frame (st : @State num) :
  scheduler_of (reset st) = scheduler_of st.
Proof.
  unfold reset.
  destruct (session (stopRecording st));
    cbn; apply stopRecording_frame.
Qed.

Lemma timeout_frame (st : @State num) :
  scheduler_of (timeout st) = scheduler_of st.
Proof.
  unfold timeout. destruct (timers st) as [|[] rest]; reflexivity.
Qed.

Lemma scheduler_of_eq (st st' : @State num) :
  scheduler_of st' = scheduler_of st ->
  nextStartTime st' = nextStartTime st
  /\ sources st' = sources st /\ nodes st' = nodes st.
Proof.
  unfold scheduler_of. intros E. injection E as -> -> ->. auto.
Qed.

(** Events other than a message or a clock tick. *)
Definition quiet (e : @Event num) : bool :=
  match e with
  | EvMessage _ _ | EvTick _ => false
  | _ => true
  end.

Lemma quiet_frame (st : @State num) e :
  quiet e = true -> scheduler_of (step st e) = scheduler_of st.
Proof.
  destruct e; cbn; try discriminate; intros _.
  - apply startRecording_frame.
  - apply stopRecording_frame.
  - apply reset_frame.
  - apply timeout_frame.
  - reflexivity.
  - reflexivity.
Qed.

(** *** The invariant of [sources] *)

Lemma Set_add_In x y s : In y (Set_add x s) -> y = x \/ In y s.
Proof.
  unfold Set_add. destruct (existsb (Nat.eqb x) s); [now right|].
  rewrite in_app_iff. cbn. intuition.
Qed.

Lemma live_ext (st st' : @State num) x :
  nodes st' = nodes st -> live st x -> live st' x.
Proof. unfold live. now intros ->. Qed.

Lemma play_live (b : @AudioBuffer num) (st : @State num) :
  sources_live st -> sources_live (state_of (play b st)).
Proof.
  intros Hl. rewrite play_eq. cbn [state_of].
  intros y Hy. cbn [sources set_sources] in Hy.
  unfold live. cbn [nodes set_sources set_nextStartTime set_nodes].
  apply Set_add_In in Hy. destruct Hy as [-> | Hy].
  - exists (scheduled_node b (nextStartTime st)).
    rewrite nth_error_last. cbn. auto.
  - destruct (Hl y Hy) as (n & En & Hn). exists n. split; [|exact Hn].
    rewrite nth_error_app1; [exact En|].
    apply nth_error_Some. congruence.
Qed.

Lemma onmessage_audio_live now data (st : @State num) :
  sources_live st -> sources_live (state_of (onmessage_audio now data st)).
Proof.
  intros Hl. unfold onmessage_audio.
  set (st1 := set_nextStartTime _ st).
  assert (H1 : sources_live st1) by exact Hl.
  destruct (decode data) as [bytes|]; [|exact H1].
  destruct (decodeAudioData _ _ _ _) as [b|]; [|exact H1].
  now apply play_live.
Qed.

Lemma onmessage_live now m (st : @State num) :
  sources_live st -> sources_live (state_of (onmessage now m st)).
Proof.
  intros Hl. unfold onmessage.
  assert (H1 : sources_live
                 (state_of (match inlineData m with
                            | Some data => onmessage_audio now data st
                            | None => Normal st
                            end))).
  { destruct (inlineData m); [now apply onmessage_audio_live | exact Hl]. }
  destruct (match inlineData m with
            | Some data => onmessage_audio now data st
            | None => Normal st
            end) as [st1|st1]; cbn [bind state_of] in *; [|exact H1].
  destruct (interrupted m); [|exact H1].
  destruct (interrupted_spec H1) as (st2 & E & Hs & _).
  rewrite E. cbn. intros y Hy. rewrite Hs in Hy. destruct Hy.
Qed.

Lemma node_advance_onended now (n : @AudioBufferSourceNode num) :
  node_onended (node_advance now n) = node_onended n.
Proof.
  unfold node_advance.
  destruct (node_phase n), (node_when n); try reflexivity;
    repeat match goal with |- context [if ?c then _ else _] =>
                             destruct c end; reflexivity.
Qed.

Lemma node_advance_phase now (n : @AudioBufferSourceNode num) :
  match node_phase n with
  | Scheduled =>
      node_phase (node_advance now n) = Scheduled
      \/ node_phase (node_advance now n) = Active
      \/ node_phase (node_advance now n) = Finished
  | Active =>
      node_phase (node_advance now n) = Active
      \/ node_phase (node_advance now n) = Finished
  | p => node_phase (node_advance now n) = p
  end.
Proof.
  unfold node_advance.
  destruct (node_phase n) eqn:E, (node_when n); try exact E;
    repeat match goal with |- context [if ?c then _ else _] =>
                             destruct c end; cbn; auto.
Qed.

Lemma tick_live now (st : @State num) :
  sources_live st -> sources_live (tick now st).
Proof.
  intros Hl y Hy. unfold tick in *.
  cbn [sources set_sources] in Hy. apply filter_In in Hy.
  destruct Hy as [Hy He]. destruct (Hl y Hy) as (n & En & Ho & Hp).
  unfold live. cbn [nodes set_sources set_nodes] in *.
  rewrite nth_error_map, En in *. cbn in *.
  exists (node_advance now n). split; [reflexivity|].
  rewrite node_advance_onended. split; [exact Ho|].
  unfold node_ended in He. rewrite node_advance_onended, Ho in He.
  pose proof (node_advance_phase now n) as Ha.
  destruct Hp as [Hp|Hp]; rewrite Hp in Ha;
    destruct (node_phase (node_advance now n)); cbn in He;
    intuition congruence.
Qed.

Lemma step_live (st : @State num) e :
  sources_live st -> sources_live (step st e).
Proof.
  intros Hl. destruct (quiet e) eqn:Q.
  - destruct (scheduler_of_eq (quiet_frame st e Q)) as (_ & Hs & Hn).
    intros y Hy. rewrite Hs in Hy. apply (live_ext _ Hn). now apply Hl.
  - destruct e; try discriminate Q; cbn [step].
    + now apply onmessage_live.
    + now apply tick_live.
Qed.

Lemma reachable_live (st : @State num) : reachable st -> sources_live st.
Proof.
  induction 1 as [t|st e _ IH].
  - intros y [].
  - now apply step_live.
Qed.

Lemma reachable_run (st : @State num) trace :
  reachable st -> reachable (run st trace).
Proof.
  revert st. induction trace as [|e trace IH]; intros st H; cbn; auto.
  apply IH. now constructor.
Qed.

(** *** [Cancelled] is final *)

Lemma play_cancelled (b : @AudioBuffer num) (st : @State num) x :
  phase_of x st = Some Cancelled ->
  phase_of x (state_of (play b st)) = Some Cancelled.
Proof.
  intros H. rewrite play_eq. unfold phase_of in *. cbn.
  rewrite nth_error_app1; [exact H|].
  apply nth_error_Some. destruct (nth_error (nodes st) x); discriminate.
Qed.

Lemma onmessage_cancelled now m (st : @State num) x :
  sources_live st ->
  phase_of x st = Some Cancelled ->
  phase_of x (state_of (onmessage now m st)) = Some Cancelled.
Proof.
  intros Hl Hx. unfold onmessage.
  pose proof (@onmessage_audio_live now) as Ha.
  assert (H1 : sources_live
                 (state_of (match inlineData m with
                            | Some data => onmessage_audio now data st
                            | None => Normal st
                            end))
               /\ phase_of x
                    (state_of (match inlineData m with
                               | Some data => onmessage_audio now data st
                               | None => Normal st
                               end)) = Some Cancelled).
  { destruct (inlineData m) as [data|]; [|now split].
    split; [now apply onmessage_audio_live|].
    unfold onmessage_audio.
    destruct (decode data) as [bytes|]; [|exact Hx].
    destruct (decodeAudioData _ _ _ _) as [b|]; [|exact Hx].
    now apply play_cancelled. }
  destruct (match inlineData m with
            | Some data => onmessage_audio now data st
            | None => Normal st
            end) as [st1|st1]; cbn [bind state_of] in *; [|apply H1].
  destruct H1 as [H1 H2].
  destruct (interrupted m); [|exact H2].
  destruct (interrupted_spec H1) as (st2 & E & _ & _ & Hc & _).
  rewrite E. cbn. now apply Hc.
Qed.

Lemma tick_cancelled now (st : @State num) x :
  phase_of x st = Some Cancelled ->
  phase_of x (tick now st) = Some Cancelled.
Proof.
  unfold phase_of, tick. cbn. rewrite nth_error_map.
  destruct (nth_error (nodes st) x) as [n|]; [|discriminate].
  cbn. intros H. injection H as H.
  pose proof (node_advance_phase now n) as Ha. rewrite H in Ha.
  now rewrite Ha.
Qed.

Lemma step_cancelled (st : @State num) e x :
  sources_live st ->
  phase_of x st = Some Cancelled ->
  phase_of x (step st e) = Some Cancelled.
Proof.
  intros Hl Hx. destruct (quiet e) eqn:Q.
  - destruct (scheduler_of_eq (quiet_frame st e Q)) as (_ & _ & Hn).
    unfold phase_of. now rewrite Hn.
  - destruct e; try discriminate Q; cbn [step].
    + now apply onmessage_cancelled.
    + now apply tick_cancelled.
Qed.

Lemma run_cancelled trace : forall (st : @State num) x,
  sources_live st ->
  phase_of x st = Some Cancelled ->
  phase_of x (run st trace) = Some Cancelled.
Proof.
  induction trace as [|e trace IH]; intros st x Hl Hx; cbn; auto.
  apply IH; [now apply step_live | now apply step_cancelled].
Qed.

End Scheduler.

(** ** Exact numbers *)

Lemma xeq_refl a : a =x= a.
Proof. destruct a; cbn; auto. reflexivity. Qed.

Lemma exact_max_le n c :
  (c <= n)%Q -> Math_max (XFin n) (XFin c) = XFin n.
Proof.
  intros H. cbn. unfold Exact.max, Exact.lt. cbn.
  apply Qle_bool_iff in H. now rewrite H.
Qed.

Lemma has_value_inv a q : has_value a q -> exists p, a = XFin p /\ (p == q)%Q.
Proof.
  destruct a as [| |p]; cbn; try contradiction. intros H. now exists p.
Qed.

(** ** Claims on the scheduler *)

(** C1 (first part). For every decoded buffer the handler starts a
    new source node at [max(nextStartTime, now)], adds it to [sources]
    and leaves [nextStartTime] at that start time plus the buffer's
    duration; this is what [onmessage] does with the audio of a message
    once decoded. *)
Lemma chunk_start_time {num : Type} {N : Number num}
    (st : @State num) (now : num) (b : AudioBuffer) :
  let startTime := Math_max (nextStartTime st) now in
  exists st',
    onChunkDecoded now b st = Normal st'
    /\ nth_error (nodes st') (List.length (nodes st))
       = Some (scheduled_node b startTime)
    /\ In (List.length (nodes st)) (sources st')
    /\ nextStartTime st' = (startTime + duration b)%js
    /\ forall data bytes,
        decode data = Some bytes ->
        decodeAudioData bytes outputAudioContext (lit 24000) (lit 1) = Some b ->
        onmessage_audio now data st = Normal st'.
Proof.
  intros startTime. eexists. split; [apply onChunkDecoded_eq|].
  cbn zeta. fold startTime. repeat split.
  - cbn. apply nth_error_last.
  - cbn. unfold Set_add.
    destruct (existsb (Nat.eqb (List.length (nodes st))) (sources st)) eqn:E.
    + apply existsb_exists in E. destruct E as (y & Hy & E).
      apply Nat.eqb_eq in E. now subst.
    + apply in_app_iff. right. now left.
  - intros data bytes Hd Hb. unfold onmessage_audio. rewrite Hd, Hb.
    now rewrite play_eq.
Qed.

Lemma three_chunks_exact (b1 b2 b3 : @AudioBuffer xnum) (c1 c2 c3 : Q) :
  has_value (duration b1) 1 ->
  has_value (duration b2) 2 ->
  has_value (duration b3) 1.5 ->
  (c1 <= 0)%Q -> (c2 <= 1)%Q -> (c3 <= 3)%Q ->
  let st1 := state_of (onChunkDecoded (XFin c1) b1 (constructed (lit 0))) in
  let st2 := state_of (onChunkDecoded (XFin c2) b2 st1) in
  let st3 := state_of (onChunkDecoded (XFin c3) b3 st2) in
  exists t1 t2 t3 t,
    start_times st3 = [Some t1; Some t2; Some t3]
    /\ has_value t1 0 /\ has_value t2 1 /\ has_value t3 3
    /\ nextStartTime st3 = t /\ has_value t 4.5.
Proof.
  intros H1 H2 H3 L1 L2 L3.
  apply has_value_inv in H1, H2, H3.
  destruct H1 as (d1 & E1 & V1), H2 as (d2 & E2 & V2), H3 as (d3 & E3 & V3).
  intros st1 st2 st3. subst st1 st2 st3.
  rewrite !onChunkDecoded_eq. cbn [state_of].
  cbn [nextStartTime set_sources set_nextStartTime set_nodes constructed
         initAudio fields nodes].
  rewrite E1, E2, E3.
  change (lit 0) with (XFin 0).
  rewrite (exact_max_le L1).
  change (XFin 0 + XFin d1)%js with (XFin (0 + d1)).
  rewrite exact_max_le by (rewrite V1; exact L2).
  change (XFin (0 + d1) + XFin d2)%js with (XFin (0 + d1 + d2)).
  rewrite exact_max_le by (rewrite V1, V2; exact L3).
  do 4 eexists. unfold start_times.
  cbn [nodes set_sources set_nextStartTime set_nodes map app node_when
         scheduled_node nextStartTime].
  split; [reflexivity|].
  cbv beta iota delta [has_value xeq].
  repeat split; try lra.
  change (XFin (0 + d1 + d2) + XFin d3)%js with (XFin (0 + d1 + d2 + d3)).
  cbv beta iota. lra.
Qed.

(** C1. Every decoded buffer is started at [max(nextStartTime, now)],
    [now] being the clock reading the handler makes, and leaves
    [nextStartTime] at that start time plus the buffer's duration
    (for every instance of the number type).  In particular three
    chunks of durations 1, 2 and 1.5 delivered from [nextStartTime = 0]
    with the clock never ahead of the running total start at 0, 1 and 3
    and leave [nextStartTime] at 4.5: for all such clock readings in
    exact arithmetic, and in double precision for the readings 0, 0.5
    and 2.75. *)
Theorem C1_start_time_and_contiguity :
  (forall (num : Type) (N : Number num) (st : @State num) (now : num)
          (b : AudioBuffer),
      let startTime := Math_max (nextStartTime st) now in
      exists st',
        onChunkDecoded now b st = Normal st'
        /\ nth_error (nodes st') (List.length (nodes st))
           = Some (scheduled_node b startTime)
        /\ In (List.length (nodes st)) (sources st')
        /\ nextStartTime st' = (startTime + duration b)%js
        /\ forall data bytes,
            decode data = Some bytes ->
            decodeAudioData bytes outputAudioContext (lit 24000) (lit 1)
            = Some b ->
            onmessage_audio now data st = Normal st')
  /\ (forall (b1 b2 b3 : @AudioBuffer xnum) (c1 c2 c3 : Q),
        has_value (duration b1) 1 ->
        has_value (duration b2) 2 ->
        has_value (duration b3) 1.5 ->
        (c1 <= 0)%Q -> (c2 <= 1)%Q -> (c3 <= 3)%Q ->
        let st1 :=
          state_of (onChunkDecoded (XFin c1) b1 (constructed (lit 0))) in
        let st2 := state_of (onChunkDecoded (XFin c2) b2 st1) in
        let st3 := state_of (onChunkDecoded (XFin c3) b3 st2) in
        exists t1 t2 t3 t,
          start_times st3 = [Some t1; Some t2; Some t3]
          /\ has_value t1 0 /\ has_value t2 1 /\ has_value t3 3
          /\ nextStartTime st3 = t /\ has_value t 4.5)
  /\ (let b1 := silence 24000%float (Z.to_nat 24000) in
      let b2 := silence 24000%float (Z.to_nat 48000) in
      let b3 := silence 24000%float (Z.to_nat 36000) in
      let st1 := state_of (onChunkDecoded 0%float b1 (constructed 0%float)) in
      let st2 := state_of (onChunkDecoded 0.5%float b2 st1) in
      let st3 := state_of (onChunkDecoded 2.75%float b3 st2) in
      (duration b1, duration b2, duration b3) = (1, 2, 1.5)%float
      /\ start_times st3 = [Some 0; Some 1; Some 3]%float
      /\ nextStartTime st3 = 4.5%float
      /\ sources st3 = [0; 1; 2]%nat).
Proof.
  split; [|split].
  - intros. apply chunk_start_time.
  - exact three_chunks_exact.
  - vm_compute. repeat split.
Qed.

Lemma C1_witness :
  let b1 := silence (XFin 24000) (Z.to_nat 24000) in
  let b2 := silence (XFin 24000) (Z.to_nat 48000) in
  let b3 := silence (XFin 24000) (Z.to_nat 36000) in
  let st1 := state_of (onChunkDecoded (XFin 0) b1 (constructed (lit 0))) in
  let st2 := state_of (onChunkDecoded (XFin 0.5) b2 st1) in
  let st3 := state_of (onChunkDecoded (XFin 2.75) b3 st2) in
  exists t1 t2 t3 t,
    start_times st3 = [Some t1; Some t2; Some t3]
    /\ has_value t1 0 /\ has_value t2 1 /\ has_value t3 3
    /\ nextStartTime st3 = t /\ has_value t 4.5.
Proof.
  apply (proj1 (proj2 C1_start_time_and_contiguity)
           (silence (XFin 24000) (Z.to_nat 24000)) (silence (XFin 24000) (Z.to_nat 48000))
           (silence (XFin 24000) (Z.to_nat 36000)) 0%Q 0.5%Q 2.75%Q);
    vm_compute; first [reflexivity | discriminate].
Defined.

(** C3. When the handler's interruption branch returns, in any state
    the component can reach: [sources] is empty, [nextStartTime] is the
    sentinel 0, and every unit that was in [sources] — each one still
    [Scheduled] or already [Active] — has been stopped: it is
    [Cancelled], and whatever happens afterwards it stays [Cancelled],
    so it is never [Active]. *)
Theorem C3_interrupt_clears_and_cancels :
  forall (num : Type) (N : Number num) (st : @State num),
    reachable st ->
    exists st',
      onmessage_interrupted st = Normal st'
      /\ sources st' = []
      /\ nextStartTime st' = lit 0
      /\ forall source, In source (sources st) ->
           live st source
           /\ phase_of source st' = Some Cancelled
           /\ forall trace,
               phase_of source (run st' trace) = Some Cancelled
               /\ phase_of source (run st' trace) <> Some Active.
Proof.
  intros num N st Hr.
  pose proof (reachable_live Hr) as Hl.
  destruct (interrupted_spec Hl) as (st' & E & Hs & Ht & _ & Hx).
  exists st'. split; [exact E|]. split; [exact Hs|]. split; [exact Ht|].
  intros source Hin.
  assert (Hl' : sources_live st').
  { intros y Hy. rewrite Hs in Hy. destruct Hy. }
  split; [now apply Hl|]. split; [now apply Hx|].
  intros trace.
  assert (Hc : phase_of source (run st' trace) = Some Cancelled).
  { apply run_cancelled; [exact Hl' | now apply Hx]. }
  split; [exact Hc|]. rewrite Hc. discriminate.
Qed.

Lemma C3_witness :
  reachable one_unit_state
  /\ sources one_unit_state = [0%nat]
  /\ phase_of 0 one_unit_state = Some Scheduled
  /\ exists st',
      onmessage_interrupted one_unit_state = Normal st'
      /\ sources st' = []
      /\ nextStartTime st' = lit 0
      /\ forall source, In source (sources one_unit_state) ->
           live one_unit_state source
           /\ phase_of source st' = Some Cancelled
           /\ forall trace,
               phase_of source (run st' trace) = Some Cancelled
               /\ phase_of source (run st' trace) <> Some Active.
Proof.
  split; [apply reach_step, reach_init|].
  split; [reflexivity|]. split; [reflexivity|].
  apply (@C3_interrupt_clears_and_cancels float binary64 one_unit_state).
  apply reach_step, reach_init.
Defined.

(** Counterexample to C5 as stated: with one unit scheduled, [reset]
    leaves it in [sources], still [Scheduled], and leaves
    [nextStartTime] where it was, whatever the clock reads (here 5);
    the design's [reset] would have emptied [sources], cancelled the
    unit and set [nextStartTime] to 5. *)
Lemma C5_counterexample :
  let st := one_unit_state in
  let now := 5%float in
  sources (reset st) = [0%nat]
  /\ sources (reset st) <> sources (spec_reset now st)
  /\ phase_of 0 (reset st) = Some Scheduled
  /\ phase_of 0 (spec_reset now st) = Some Cancelled
  /\ (nextStartTime (reset st) === now)%js = false
  /\ nextStartTime (reset st) = nextStartTime st
  /\ nextStartTime (spec_reset now st) = now.
Proof.
  vm_compute. repeat split. discriminate.
Qed.

(** C5 (amended). [reset] does not touch the scheduler: [sources],
    every source node and [nextStartTime] are after [reset] what they
    were before, and still so when the timer it sets has fired.
    [reset] stops recording, closes the session if there is one and
    sets the timer that reopens it.  [nextStartTime] takes the clock's
    reading only in [initAudio], when the component is constructed. *)
Theorem C5_reset_leaves_scheduler :
  forall (num : Type) (N : Number num) (st : @State num),
    scheduler_of (reset st) = scheduler_of st
    /\ scheduler_of (timeout (reset st)) = scheduler_of st
    /\ isRecording (reset st) = false
    /\ session (reset st)
       = match session st with Some _ => Some Closed | None => None end
    /\ timers (reset st) = timers st ++ [ReinitSession]
    /\ forall currentTime : num,
        nextStartTime (constructed currentTime) = currentTime
        /\ nextStartTime (initAudio currentTime st) = currentTime.
Proof.
  intros num N st.
  split; [apply reset_frame|].
  split; [now rewrite timeout_frame, reset_frame|].
  unfold reset, stopRecording.
  destruct (isRecording st), (mediaStream st), (sourceNode st),
    (scriptProcessorNode st); cbn;
    destruct (session st) eqn:E; cbn; rewrite ?E; repeat split.
Qed.

(** ** A buffer of zero duration *)

Lemma Qle_bool_proper p p' q :
  (p == p')%Q -> Qle_bool q p = Qle_bool q p'.
Proof.
  intros E.
  destruct (Qle_bool q p) eqn:A, (Qle_bool q p') eqn:B; auto.
  - apply Qle_bool_iff in A. rewrite E in A. apply Qle_bool_iff in A.
    congruence.
  - apply Qle_bool_iff in B. rewrite <- E in B. apply Qle_bool_iff in B.
    congruence.
Qed.

Lemma Qeq_bool_proper p p' q :
  (p == p')%Q -> Qeq_bool p q = Qeq_bool p' q.
Proof.
  intros E.
  destruct (Qeq_bool p q) eqn:A, (Qeq_bool p' q) eqn:B; auto.
  - apply Qeq_bool_iff in A. rewrite E in A. apply Qeq_bool_iff in A.
    congruence.
  - apply Qeq_bool_iff in B. rewrite <- E in B. apply Qeq_bool_iff in B.
    congruence.
Qed.

Lemma exact_add_zero a d : (d == 0)%Q -> (a + XFin d)%js =x= a.
Proof.
  intros E. destruct a as [| s | p]; cbn; auto. lra.
Qed.

Lemma exact_le_add_zero a d t :
  (d == 0)%Q -> ((a + XFin d) <= t)%js = (a <= t)%js.
Proof.
  intros E. destruct a as [| s | p]; try reflexivity.
  assert (Ep : (p + d == p)%Q) by lra.
  destruct t as [| s | q]; try reflexivity.
  cbn. unfold Exact.le, Exact.lt, Exact.eq.
  now rewrite (Qle_bool_proper q Ep), (Qeq_bool_proper q Ep).
Qed.

(** Counterexample to C7 as stated, in double precision: with
    [nextStartTime] left at 2 and the clock at 10, a buffer of zero
    duration is started at 10 and [nextStartTime] becomes 10; it is not
    unchanged. *)
Lemma C7_counterexample :
  let st := constructed 2%float in
  let b := silence 24000%float 0 in
  let st' := state_of (onChunkDecoded 10%float b st) in
  duration b = 0%float
  /\ nextStartTime st = 2%float
  /\ nextStartTime st' = 10%float
  /\ (nextStartTime st' === nextStartTime st)%js = false
  /\ nextStartTime st' <> nextStartTime st.
Proof.
  vm_compute. repeat split.
  intros H. apply (f_equal (PrimFloat.eqb 2%float)) in H.
  vm_compute in H. discriminate H.
Qed.

(** C7 (amended). A buffer of zero duration is still scheduled — a
    source node is started for it at [max(nextStartTime, now)] and
    added to [sources] — and it completes as soon as the clock reaches
    that start time, its node being [Finished] and removed from
    [sources]; after the call [nextStartTime] equals that start time,
    so it is unchanged when the clock is not ahead of it and is the
    clock's reading otherwise.  (Exact arithmetic.) *)
Theorem C7_zero_duration_chunk :
  forall (st : @State xnum) (now : xnum) (b : AudioBuffer),
    has_value (duration b) 0 ->
    let startTime := Math_max (nextStartTime st) now in
    let source := List.length (nodes st) in
    exists st',
      onChunkDecoded now b st = Normal st'
      /\ nth_error (nodes st') source = Some (scheduled_node b startTime)
      /\ In source (sources st')
      /\ nextStartTime st' =x= startTime
      /\ (forall t, (startTime <= t)%js = true ->
            phase_of source (tick t st') = Some Finished
            /\ ~ In source (sources (tick t st')))
      /\ (forall n c, nextStartTime st = XFin n -> now = XFin c ->
            ((c <= n)%Q -> nextStartTime st' =x= nextStartTime st)
            /\ ((n < c)%Q -> nextStartTime st' =x= now)).
Proof.
  intros st now b Hd startTime source.
  destruct (chunk_start_time st now b) as (st' & E & Hn & Hi & Ht & _).
  fold startTime source in Hn, Hi, Ht.
  apply has_value_inv in Hd. destruct Hd as (d & Ed & Vd).
  assert (Hnext : nextStartTime st' =x= startTime).
  { rewrite Ht, Ed. now apply exact_add_zero. }
  exists st'. split; [exact E|]. split; [exact Hn|]. split; [exact Hi|].
  split; [exact Hnext|]. split.
  - intros t Hle.
    assert (Hadv : nth_error (nodes (tick t st')) source
                   = Some (with_phase Finished (scheduled_node b startTime))).
    { unfold tick. cbn [nodes set_sources set_nodes].
      rewrite nth_error_map, Hn. cbn [option_map]. f_equal.
      unfold node_advance. cbn [node_phase node_when scheduled_node].
      rewrite Hle.
      change (node_duration (scheduled_node b startTime)) with (duration b).
      rewrite Ed.
      now rewrite (exact_le_add_zero startTime t Vd), Hle. }
    split.
    + unfold phase_of. now rewrite Hadv.
    + intros Hin. unfold tick in Hin. cbn [sources set_sources] in Hin.
      apply filter_In in Hin. destruct Hin as [_ Hne].
      unfold tick in Hadv. cbn [nodes set_sources set_nodes] in Hadv.
      rewrite Hadv in Hne. discriminate Hne.
  - intros n c En Ec. subst startTime. rewrite En, Ec in Hnext.
    split; intros Hc.
    + rewrite exact_max_le in Hnext by exact Hc. now rewrite En.
    + replace (Math_max (XFin n) (XFin c)) with (XFin c) in Hnext;
        [now rewrite Ec|].
      cbn. unfold Exact.max, Exact.lt. cbn.
      destruct (Qle_bool c n) eqn:B; [|reflexivity].
      apply Qle_bool_iff in B. lra.
Qed.

Lemma C7_witness :
  has_value (duration (silence (XFin 24000) 0)) 0
  /\ exists st',
      onChunkDecoded (XFin 10) (silence (XFin 24000) 0) (constructed (XFin 2))
      = Normal st'
      /\ nextStartTime st' =x= XFin 10
      /\ phase_of 0 (tick (XFin 10) st') = Some Finished
      /\ sources st' = [0%nat]
      /\ sources (tick (XFin 10) st') = [].
Proof.
  split; [vm_compute; reflexivity|].
  destruct (@C7_zero_duration_chunk (constructed (XFin 2)) (XFin 10)
              (silence (XFin 24000) 0))
    as (st' & E & Hn & Hi & Ht & Hk & _); [vm_compute; reflexivity|].
  exists st'. split; [exact E|].
  rewrite onChunkDecoded_eq in E. injection E as <-.
  split; [exact Ht|]. split; [apply (Hk (XFin 10)); reflexivity|].
  split; reflexivity.
Defined.

(** ** Truncation of rationals *)

Lemma Qtrunc_nonneg x : (0 <= x)%Q -> Qtrunc x = Qfloor x.
Proof.
  destruct x as [n d]. unfold Qle, Qtrunc, Qfloor. cbn. intros H.
  apply Z.quot_div_nonneg; lia.
Qed.

Lemma Qtrunc_nonpos x : (x <= 0)%Q -> Qtrunc x = Qceiling x.
Proof.
  destruct x as [n d]. unfold Qle, Qtrunc, Qceiling, Qfloor. cbn. intros H.
  rewrite <- (Z.opp_involutive n) at 1.
  rewrite Z.quot_opp_l by lia. f_equal.
  apply Z.quot_div_nonneg; lia.
Qed.

Lemma Qtrunc_Z k : Qtrunc (inject_Z k) = k.
Proof. unfold Qtrunc. cbn. apply Z.quot_1_r. Qed.

Lemma Qtrunc_mono x y : (x <= y)%Q -> Qtrunc x <= Qtrunc y.
Proof.
  intros H.
  destruct (Qlt_le_dec x 0) as [Hx|Hx], (Qlt_le_dec y 0) as [Hy|Hy].
  - rewrite !Qtrunc_nonpos by lra. now apply Qceiling_resp_le.
  - rewrite (@Qtrunc_nonpos x), (Qtrunc_nonneg Hy) by lra.
    transitivity 0.
    + change 0 with (Qceiling 0). apply Qceiling_resp_le. lra.
    + change 0 with (Qfloor 0). now apply Qfloor_resp_le.
  - lra.
  - rewrite !Qtrunc_nonneg by lra. now apply Qfloor_resp_le.
Qed.

(** Truncation moves a number by less than one, toward zero. *)
Lemma Qtrunc_bounds x :
  (x - 1 < inject_Z (Qtrunc x) /\ inject_Z (Qtrunc x) < x + 1)%Q
  /\ ((0 <= x)%Q -> (inject_Z (Qtrunc x) <= x)%Q)
  /\ ((x <= 0)%Q -> (x <= inject_Z (Qtrunc x))%Q).
Proof.
  destruct (Qlt_le_dec x 0) as [Hx|Hx].
  - rewrite Qtrunc_nonpos by lra.
    pose proof (Qle_ceiling x) as A. pose proof (Qceiling_lt x) as B.
    assert (E : (inject_Z (Qceiling x - 1) == inject_Z (Qceiling x) - 1)%Q).
    { unfold Z.sub. rewrite inject_Z_plus. reflexivity. }
    rewrite E in B.
    repeat split; intros; lra.
  - rewrite (Qtrunc_nonneg Hx).
    pose proof (Qfloor_le x) as A. pose proof (Qlt_floor x) as B.
    assert (E : (inject_Z (Qfloor x + 1) == inject_Z (Qfloor x) + 1)%Q).
    { rewrite inject_Z_plus. reflexivity. }
    rewrite E in B.
    assert (C : (0 <= inject_Z (Qfloor x))%Q).
    { change 0%Q with (inject_Z (Qfloor 0)). rewrite <- Zle_Qle.
      now apply Qfloor_resp_le. }
    repeat split; intros; lra.
Qed.

(** ** Loops that fill an array *)

Lemma for_n_S {S : Type} n (body : nat -> S -> S) s :
  for_n (Datatypes.S n) body s = body n (for_n n body s).
Proof.
  unfold for_n. rewrite seq_S, fold_left_app. reflexivity.
Qed.

Lemma store_app {A : Type} (p q : list A) x v :
  store (p ++ x :: q) (List.length p) v = p ++ v :: q.
Proof.
  induction p as [|y p IH]; cbn; [reflexivity|]. now rewrite IH.
Qed.

Lemma store_beyond {A : Type} (a : list A) i v :
  (List.length a <= i)%nat -> store a i v = a.
Proof.
  revert i; induction a as [|x a IH]; intros [|i] H; cbn in *;
    try reflexivity; try lia.
  rewrite IH by lia. reflexivity.
Qed.

Lemma for_n_store_length {B : Type} (g : nat -> B) init k :
  List.length (for_n k (fun i r => store r i (g i)) init) = List.length init.
Proof.
  induction k as [|k IH]; [reflexivity|].
  rewrite for_n_S, store_length. exact IH.
Qed.

Lemma for_n_store {B : Type} (g : nat -> B) init k :
  (k <= List.length init)%nat ->
  for_n k (fun i r => store r i (g i)) init
  = map g (seq 0 k) ++ skipn k init.
Proof.
  induction k as [|k IH]; intros Hk; [reflexivity|].
  rewrite for_n_S, IH by lia.
  assert (Hs : exists x, skipn k init = x :: skipn (S k) init).
  { clear IH. revert k Hk. induction init as [|y init IHi]; intros k Hk.
    - cbn in Hk. lia.
    - destruct k as [|k]; [now exists y|]. cbn in *.
      apply IHi. lia. }
  destruct Hs as (x & ->).
  replace k with (List.length (map g (seq 0 k))) at 3
    by now rewrite length_map, length_seq.
  rewrite store_app, seq_S, map_app, <- app_assoc. reflexivity.
Qed.

Lemma for_n_store_all {B : Type} (g : nat -> B) init k :
  (List.length init <= k)%nat ->
  for_n k (fun i r => store r i (g i)) init
  = map g (seq 0 (List.length init)).
Proof.
  induction k as [|k IH]; intros Hk.
  - destruct init; [reflexivity | cbn in Hk; lia].
  - destruct (Nat.eq_dec (List.length init) (S k)) as [E|D].
    + rewrite for_n_store by lia. rewrite E.
      rewrite skipn_all2 by lia. now rewrite app_nil_r.
    + rewrite for_n_S, store_beyond.
      * apply IH. lia.
      * rewrite for_n_store_length. lia.
Qed.

Lemma map_nth_seq {A B : Type} (f : A -> B) (a : list A) d :
  map (fun i => f (nth i a d)) (seq 0 (List.length a)) = map f a.
Proof.
  induction a as [|x a IH]; [reflexivity|].
  cbn [List.length seq map nth]. f_equal.
  rewrite <- seq_shift, map_map. exact IH.
Qed.

(** The quantizing loop treats each sample on its own. *)
Lemma quantize_map {num : Type} {N : Number num} (a : list num) :
  quantize a
  = map (fun x => ToInt16 (Math_max (lit (-32768))
                             (Math_min (lit 32767) (x * lit 32768)%js))) a.
Proof.
  unfold quantize.
  rewrite for_n_store_all by now rewrite repeat_length.
  rewrite repeat_length.
  apply (map_nth_seq
           (fun x => ToInt16 (Math_max (lit (-32768))
                                (Math_min (lit 32767) (x * lit 32768)%js)))).
Qed.

(** ** The quantizer in exact arithmetic *)

Lemma wrap16_id z : -32768 <= z <= 32767 -> wrap16 z = z.
Proof.
  intros H. unfold wrap16.
  destruct (Z.ltb_spec (z mod 65536) 32768);
    Z.div_mod_to_equations; lia.
Qed.

Lemma quantize_sample_exact (s : Q) :
  ToInt16 (Math_max (lit (-32768))
             (Math_min (lit 32767) (XFin s * lit 32768)%js))
  = clamp16 (Qtrunc (s * 32768)).
Proof.
  cbn [lit exact num_mul Math_max Math_min Exact.mul].
  change (inject_Z 32768) with 32768%Q.
  set (x := (s * 32768)%Q).
  unfold Exact.min, Exact.max, Exact.lt, Exact.is_nan. cbn [orb negb].
  pose proof (@Qtrunc_mono x) as Hup. pose proof (fun y => @Qtrunc_mono y x) as Hlo.
  destruct (Qle_bool (inject_Z 32767) x) eqn:A; cbn [negb].
  - (* saturated above *)
    apply Qle_bool_iff in A. apply Hlo in A. rewrite Qtrunc_Z in A.
    cbn. unfold clamp16. lia.
  - assert (A' : (x < inject_Z 32767)%Q).
    { apply Qnot_le_lt. intros C. apply Qle_bool_iff in C. congruence. }
    apply Qlt_le_weak, Hup in A'. rewrite Qtrunc_Z in A'.
    destruct (Qle_bool x (inject_Z (-32768))) eqn:B; cbn [negb].
    + (* saturated below *)
      apply Qle_bool_iff in B. apply Hup in B. rewrite Qtrunc_Z in B.
      cbn. unfold clamp16. lia.
    + assert (B' : (inject_Z (-32768) < x)%Q).
      { apply Qnot_le_lt. intros C. apply Qle_bool_iff in C. congruence. }
      apply Qlt_le_weak, Hlo in B'. rewrite Qtrunc_Z in B'.
      unfold ToInt16. cbn [truncate exact Exact.trunc].
      rewrite wrap16_id by lia. unfold clamp16. lia.
Qed.

Lemma quantize_exact (samples : list Q) :
  quantize (map XFin samples)
  = map (fun s => clamp16 (Qtrunc (s * 32768))) samples.
Proof.
  rewrite quantize_map, map_map. apply map_ext. intro s.
  apply quantize_sample_exact.
Qed.

(** Counterexample to C4 as stated: the sample [3/131072] (a single
    precision number, [0.75/32768]) is quantized to 0, in exact
    arithmetic and in double precision alike, while
    [round(s * 32768) = round(0.75) = 1]; and its opposite is quantized
    to 0, not to [-1]. *)
Lemma C4_counterexample :
  quantize [XFin (3 # 131072)] = [0]
  /\ quantize [0x1.8p-16%float] = [0]
  /\ spec_quantize (3 # 131072) = 1
  /\ quantize [XFin (3 # 131072)] <> [spec_quantize (3 # 131072)]
  /\ quantize [XFin (- 3 # 131072)] = [0]
  /\ spec_quantize (- 3 # 131072) = -1.
Proof.
  vm_compute. repeat split. discriminate.
Qed.

(** C4 (amended). The quantizer maps every finite sample [s] to
    [s * 32768] with its fractional part dropped (truncated toward
    zero, not rounded to the nearest integer), clamped to
    [-32768, 32767] (saturating, not wrapping); in particular
    [quantize([2.0]) = [32767]], [quantize([-2.0]) = [-32768]] and
    [quantize([0.0]) = [0]], in exact arithmetic and in double
    precision. *)
Theorem C4_quantize_truncates_and_saturates :
  (forall samples : list Q,
      quantize (map XFin samples)
      = map (fun s => clamp16 (Qtrunc (s * 32768))) samples)
  /\ (quantize [XFin 2] = [32767]
      /\ quantize [XFin (-2)] = [-32768]
      /\ quantize [XFin 0] = [0])
  /\ (quantize [2%float] = [32767]
      /\ quantize [(-2)%float] = [-32768]
      /\ quantize [0%float] = [0]).
Proof.
  split; [exact quantize_exact|].
  split; vm_compute; repeat split.
Qed.

(** ** Sixteen-bit elements and their bytes *)

Lemma Z_of_byte_of_Z z : 0 <= z < 256 -> Z_of_byte (byte_of_Z z) = z.
Proof.
  intros H. unfold Z_of_byte, byte_of_Z.
  assert (E : Byte.to_N (byte_of_ascii (ascii_of_N (Z.to_N z)))
              = N_of_ascii (ascii_of_N (Z.to_N z))).
  { apply Byte.to_of_N. symmetry. apply byte_of_ascii_via_N. }
  rewrite E, N_ascii_embedding by lia. lia.
Qed.

Lemma int16_elements_bytes (l : list Z) :
  Forall (fun v => -32768 <= v <= 32767) l ->
  int16_elements (flat_map int16_bytes l) = l.
Proof.
  induction 1 as [|v l Hv _ IH]; [reflexivity|].
  cbn [flat_map int16_bytes app int16_elements]. cbv zeta.
  rewrite IH. f_equal.
  rewrite !Z_of_byte_of_Z by (Z.div_mod_to_equations; lia).
  unfold wrap16.
  replace (v mod 65536 mod 256 + 256 * (v mod 65536 / 256))
    with (v mod 65536) by (Z.div_mod_to_equations; lia).
  rewrite Zmod_mod.
  destruct (Z.ltb_spec (v mod 65536) 32768);
    Z.div_mod_to_equations; lia.
Qed.

Lemma clamp16_range z : -32768 <= clamp16 z <= 32767.
Proof. unfold clamp16. lia. Qed.

(** ** Quantize, then dequantize *)

(** The mono buffer [decodeAudioData] makes of one 16-bit frame. *)
Lemma decodeAudioData_one_frame (lo hi : byte) :
  decodeAudioData [lo; hi] outputAudioContext (lit 24000) (lit 1)
  = Some {| buffer_sampleRate := XFin 24000;
            buffer_length := 1;
            channels :=
              [[XFin (inject_Z (wrap16 (Z_of_byte lo + 256 * Z_of_byte hi))
                      / inject_Z 32768)]] |}.
Proof. reflexivity. Qed.

Lemma dequantize_one (v : Z) :
  dequantize [v] (lit 1) (lit 1) 0 [lit 0]
  = [XFin (inject_Z v / inject_Z 32768)].
Proof. reflexivity. Qed.

Lemma clamp_trunc_error (x : Q) :
  (-32768 <= x <= 32768)%Q ->
  (-1 <= inject_Z (clamp16 (Qtrunc x)) - x <= 1)%Q.
Proof.
  intros [Hlo Hhi].
  pose proof (Qtrunc_mono Hlo) as A. pose proof (Qtrunc_mono Hhi) as B.
  change (-32768)%Q with (inject_Z (-32768)) in A.
  change 32768%Q with (inject_Z 32768) in B.
  rewrite Qtrunc_Z in A, B.
  destruct (Qtrunc_bounds x) as ((C1 & C2) & C3 & _).
  destruct (Z.eq_dec (Qtrunc x) 32768) as [E|D].
  - rewrite E in *. change (clamp16 32768) with 32767.
    assert (0 <= x)%Q as Hx.
    { apply Qnot_lt_le. intros Hneg.
      change (inject_Z 32768) with 32768%Q in C2. lra. }
    specialize (C3 Hx).
    change (inject_Z 32768) with 32768%Q in C3.
    change (inject_Z 32767) with 32767%Q. lra.
  - replace (clamp16 (Qtrunc x)) with (Qtrunc x) by (unfold clamp16; lia).
    lra.
Qed.

(** C8. For every sample [s] in [[-1, 1]], quantizing and then
    dequantizing gives a value within [1/32768] of [s]: for the two
    loops composed, and through the whole path from [createBlob] over
    the encoded payload and [decode] to [decodeAudioData].  (Exact
    arithmetic; on this path double precision computes the same
    values, multiplying and dividing by a power of two.) *)
Theorem C8_quantization_error :
  forall s : Q,
    (-1 <= s <= 1)%Q ->
    exists d : Q,
      dequantize (quantize [XFin s]) (lit 1) (lit 1) 0 [lit 0] = [XFin d]
      /\ (exists blob bytes buffer,
            createBlob [XFin s] (lit 16000) = Some blob
            /\ decode (data blob) = Some bytes
            /\ decodeAudioData bytes outputAudioContext (lit 24000) (lit 1)
               = Some buffer
            /\ channels buffer = [[XFin d]])
      /\ (Qabs (d - s) <= 1 # 32768)%Q.
Proof.
  intros s Hs.
  set (v := clamp16 (Qtrunc (s * 32768))).
  assert (Hq : quantize [XFin s] = [v]) by apply (quantize_exact [s]).
  exists (inject_Z v / inject_Z 32768)%Q. split; [|split].
  - rewrite Hq. apply dequantize_one.
  - assert (Hb : createBlob [XFin s] (lit 16000)
                 = Some {| data := encode (flat_map int16_bytes [v]);
                           mimeType := str "audio/pcm;rate=16000" |}).
    { unfold createBlob.
      change (lit 16000 !== lit 16000)%js with false. cbv iota.
      now rewrite Hq. }
    eexists _, _, _. split; [exact Hb|]. cbn [data].
    split; [apply decode_encode|].
    cbn [flat_map int16_bytes app]. cbv zeta.
    split; [apply decodeAudioData_one_frame|].
    cbn [channels].
    pose proof (clamp16_range (Qtrunc (s * 32768))) as Hv. fold v in Hv.
    assert (Hw : int16_elements (flat_map int16_bytes [v]) = [v]).
    { apply int16_elements_bytes. now constructor. }
    change (int16_elements (flat_map int16_bytes [v]))
      with [wrap16 (Z_of_byte (byte_of_Z (v mod 65536 mod 256))
                    + 256 * Z_of_byte (byte_of_Z (v mod 65536 / 256)))]
      in Hw.
    injection Hw as Hw.
    apply (f_equal (fun w => [[XFin (inject_Z w / inject_Z 32768)]])).
    exact Hw.
  - assert (He : (-1 <= inject_Z v - s * 32768 <= 1)%Q).
    { apply clamp_trunc_error. lra. }
    unfold Qdiv. change (/ inject_Z 32768)%Q with (1 # 32768)%Q.
    apply Qabs_Qle_condition. split; lra.
Qed.

Lemma C8_witness :
  (-1 <= 1 # 3 <= 1)%Q
  /\ exists d : Q,
      dequantize (quantize [XFin (1 # 3)]) (lit 1) (lit 1) 0 [lit 0]
      = [XFin d]
      /\ (Qabs (d - (1 # 3)) <= 1 # 32768)%Q.
Proof.
  assert (H : (-1 <= 1 # 3 <= 1)%Q) by (split; discriminate).
  split; [exact H|].
  destruct (C8_quantization_error H) as (d & Hd & _ & He).
  exists d. split; [exact Hd | exact He].
Defined.

(** ** The resampler's output length *)

Lemma for_n_length {A : Type} (body : nat -> list A -> list A) k init :
  (forall i r, List.length (body i r) = List.length r) ->
  List.length (for_n k body init) = List.length init.
Proof.
  intros Hb. induction k as [|k IH]; [reflexivity|].
  now rewrite for_n_S, Hb.
Qed.

(** Whether [resampleLinear] returns, and the length of what it
    returns, are those of the allocation [new Float32Array(outputLength)]. *)
Lemma resample_length {num : Type} {N : Number num}
    (inputData : list num) (inputSr outputSr : num) :
  (inputSr === outputSr)%js = false ->
  option_map (@List.length num) (resampleLinear inputData inputSr outputSr)
  = ToIndex (Math_floor (len inputData / (inputSr / outputSr)))%js.
Proof.
  intros Hne. unfold resampleLinear, new_Float32Array. rewrite Hne.
  destruct (ToIndex _) as [k|]; [|reflexivity].
  cbn [option_map]. f_equal.
  rewrite for_n_length; [apply repeat_length|].
  intros i r.
  repeat match goal with |- context [if ?c then _ else _] => destruct c end;
    apply store_length.
Qed.

Lemma exact_is_zero q : Exact.is_zero q = false <-> ~ (q == 0)%Q.
Proof.
  unfold Exact.is_zero, Qeq. cbn. rewrite Z.eqb_neq. lia.
Qed.

Lemma Qfloor_integer_ratio (a b c : Z) :
  0 < c ->
  Qfloor (inject_Z a * inject_Z b / inject_Z c) = a * b / c.
Proof.
  intros Hc.
  assert (E : (inject_Z a * inject_Z b / inject_Z c == (a * b) # Z.to_pos c)%Q).
  { unfold Qeq, Qdiv, Qmult, Qinv, inject_Z. cbn.
    destruct c as [|c|c]; try lia. cbn. lia. }
  rewrite E. cbn. rewrite Z2Pos.id by lia. reflexivity.
Qed.

(** In exact arithmetic, with positive integer rates, the allocation
    succeeds and the length is [floor(len * r2 / r1)]. *)
Lemma resample_length_exact (x : list xnum) (r1 r2 : Z) :
  0 < r1 -> 0 < r2 -> r1 <> r2 ->
  Z.of_nat (List.length x) * r2 / r1 < 2 ^ 53 ->
  exists y,
    resampleLinear x (lit r1) (lit r2) = Some y
    /\ Z.of_nat (List.length y) = Z.of_nat (List.length x) * r2 / r1.
Proof.
  intros H1 H2 Hne Hb.
  set (n := Z.of_nat (List.length x)) in *.
  assert (Hs : (XFin (inject_Z r1) === XFin (inject_Z r2))%js = false).
  { cbn. apply not_true_is_false. intros E. apply Qeq_bool_iff in E.
    apply Hne. unfold Qeq in E. cbn in E. lia. }
  pose proof (resample_length x (lit r1) (lit r2) Hs) as Hl.
  assert (Hr1 : (0 < inject_Z r1)%Q) by (rewrite <- (Zlt_Qlt 0); lia).
  assert (Hr2 : (0 < inject_Z r2)%Q) by (rewrite <- (Zlt_Qlt 0); lia).
  assert (Hratio : (lit r1 / lit r2)%js = XFin (inject_Z r1 / inject_Z r2)).
  { cbn. unfold Exact.div.
    replace (Exact.is_zero (inject_Z r2)) with false; [reflexivity|].
    symmetry. apply exact_is_zero. lra. }
  assert (Hpos : (0 < inject_Z r1 / inject_Z r2)%Q).
  { apply Qlt_shift_div_l; lra. }
  assert (Hlen : (len x / (lit r1 / lit r2))%js
                 = XFin (inject_Z n / (inject_Z r1 / inject_Z r2))).
  { rewrite Hratio. unfold len. fold n. cbn. unfold Exact.div.
    replace (Exact.is_zero (inject_Z r1 / inject_Z r2)) with false;
      [reflexivity|].
    symmetry. apply exact_is_zero. lra. }
  rewrite Hlen in Hl. cbn [Math_floor exact Exact.floor] in Hl.
  assert (Hf : Qfloor (inject_Z n / (inject_Z r1 / inject_Z r2)) = n * r2 / r1).
  { rewrite <- Qfloor_integer_ratio by lia. apply Qfloor_comp.
    field. split; lra. }
  rewrite Hf in Hl. unfold ToIndex in Hl.
  cbn [truncate exact Exact.trunc] in Hl. rewrite Qtrunc_Z in Hl.
  assert (H0 : 0 <= n * r2 / r1).
  { apply Z.div_pos; [|lia]. apply Z.mul_nonneg_nonneg; lia. }
  replace ((0 <=? n * r2 / r1) && (n * r2 / r1 <=? 2 ^ 53 - 1)) with true in Hl
    by (symmetry; apply andb_true_iff; split;
        [apply Z.leb_le | apply Z.leb_le]; lia).
  destruct (resampleLinear x (lit r1) (lit r2)) as [y|]; [|discriminate].
  exists y. split; [reflexivity|].
  cbn in Hl. injection Hl as Hl. rewrite Hl. lia.
Qed.

(** Counterexample to C6 as stated, in double precision: 480 samples
    taken from 48000 Hz to 44100 Hz come out as 440 samples, while
    [floor(480 * 44100 / 48000) = 441].  The quotient [48000 / 44100]
    is rounded, and [480] divided by it falls just below 441. *)
Lemma C6_counterexample :
  option_map (@List.length float)
    (resampleLinear (repeat 0%float 480) 48000%float 44100%float)
  = Some 440%nat
  /\ (480 / (48000 / 44100) <? 441)%float = true
  /\ 480 * 44100 / 48000 = 441
  /\ option_map (@List.length xnum)
       (resampleLinear (repeat (XFin 0) 480) (lit 48000) (lit 44100))
     = Some 441%nat.
Proof.
  vm_compute. repeat split.
Qed.

(** C6 (amended). For rates that differ, [resampleLinear] returns
    exactly when an array of length [floor(inputLength / ratio)] can be
    allocated, with [ratio = inputSr / outputSr], and its output has
    that length, the two divisions and the floor being those of the
    number type.  In exact arithmetic, for positive integer rates, it
    returns and the length is [floor(len * r2 / r1)]; in double
    precision the rounded quotients can give one less (48000 Hz to
    44100 Hz, 480 samples: 440). *)
Theorem C6_resample_length :
  (forall (num : Type) (N : Number num) (x : list num) (r1 r2 : num),
      (r1 === r2)%js = false ->
      option_map (@List.length num) (resampleLinear x r1 r2)
      = ToIndex (Math_floor (len x / (r1 / r2)))%js)
  /\ (forall (x : list xnum) (r1 r2 : Z),
        0 < r1 -> 0 < r2 -> r1 <> r2 ->
        Z.of_nat (List.length x) * r2 / r1 < 2 ^ 53 ->
        exists y,
          resampleLinear x (lit r1) (lit r2) = Some y
          /\ Z.of_nat (List.length y) = Z.of_nat (List.length x) * r2 / r1).
Proof.
  split.
  - intros. now apply resample_length.
  - exact resample_length_exact.
Qed.

Lemma C6_witness :
  (48000%float === 44100%float)%js = false
  /\ option_map (@List.length float)
       (resampleLinear (repeat 0%float 480) 48000%float 44100%float)
     = ToIndex (Math_floor (len (repeat 0%float 480)
                            / (48000%float / 44100%float)))%js
  /\ exists y,
      resampleLinear (repeat (XFin 0) 480) (lit 48000) (lit 44100) = Some y
      /\ Z.of_nat (List.length y)
         = Z.of_nat (List.length (repeat (XFin 0) 480)) * 44100 / 48000.
Proof.
  split; [reflexivity|]. split.
  - apply (proj1 C6_resample_length float binary64). reflexivity.
  - apply (proj2 C6_resample_length); vm_compute; congruence.
Defined.

(* ================================================================= *)
(** * Part III — further properties of the code                       *)
(* ================================================================= *)

(** ** The codec *)

Module CodecFacts.
Import Base64 Base64Facts.

Lemma btoa_length_exact s :
  Z.of_nat (List.length (btoa s)) = 4 * ((Z.of_nat (List.length s) + 2) / 3).
Proof.
  induction s as [| a | a b | a b c s IH] using list_ind3;
    try reflexivity.
  cbn [btoa List.length]. cbv zeta. cbn [List.length].
  rewrite !Nat2Z.inj_succ, IH.
  Z.div_mod_to_equations. lia.
Qed.

Lemma padding_repeat s :
  padding s
  = repeat pad (Z.to_nat ((3 - Z.of_nat (List.length s) mod 3) mod 3)).
Proof.
  induction s as [| a | a b | a b c s IH] using list_ind3;
    try reflexivity.
  cbn [padding List.length]. rewrite IH. do 2 f_equal.
  rewrite !Nat2Z.inj_succ. Z.div_mod_to_equations. lia.
Qed.

Lemma unpadded_no_pad s :
  filter (fun c => negb (Ascii.eqb c pad)) (unpadded s) = unpadded s.
Proof.
  pose proof (unpadded_alphabet s) as H.
  induction (unpadded s) as [|c l IH]; [reflexivity|].
  cbn in *. apply andb_true_iff in H. destruct H as [Hc Hl].
  destruct (alphabet_plain c Hc) as [_ ->]. cbn. now rewrite IH.
Qed.

Lemma padding_all_pad s :
  filter (fun c => negb (Ascii.eqb c pad)) (padding s) = [].
Proof.
  rewrite padding_repeat.
  induction (Z.to_nat _) as [|k IH]; [reflexivity|]. exact IH.
Qed.

Lemma atob_unpadded s : atob (unpadded s) = Some s.
Proof.
  unfold atob.
  assert (Hw : filter (fun c => negb (is_ascii_whitespace c)) (unpadded s)
               = unpadded s).
  { pose proof (unpadded_alphabet s) as H.
    induction (unpadded s) as [|c l IH]; [reflexivity|].
    cbn in *. apply andb_true_iff in H. destruct H as [Hc Hl].
    destruct (alphabet_plain c Hc) as [-> _]. cbn. now rewrite IH. }
  rewrite Hw.
  assert (Hs : strip_padding (unpadded s) = unpadded s).
  { unfold strip_padding.
    destruct (Z.of_nat (List.length (unpadded s)) mod 4 =? 0);
      [|reflexivity].
    destruct (rev (unpadded s)) as [|c r] eqn:Hr; [reflexivity|].
    now rewrite (last_not_pad _ (unpadded_alphabet s) Hr). }
  rewrite Hs.
  destruct (Z.eqb_spec (Z.of_nat (List.length (unpadded s)) mod 4) 1) as [E|_].
  - now apply unpadded_length in E.
  - now rewrite unpadded_alphabet, decode_loop_unpadded.
Qed.

Lemma drop_last_pad_keeps s c :
  In c s -> c <> pad -> In c (drop_last_pad s).
Proof.
  intros Hin Hc. unfold drop_last_pad.
  destruct (rev s) as [|d r] eqn:Hr; [exact Hin|].
  destruct (Ascii.eqb_spec d pad) as [->|_]; [|exact Hin].
  apply in_rev in Hin. rewrite Hr in Hin. destruct Hin as [E|Hin].
  - congruence.
  - now apply in_rev in Hin.
Qed.

Lemma strip_padding_keeps s c :
  In c s -> c <> pad -> In c (strip_padding s).
Proof.
  intros Hin Hc. unfold strip_padding.
  destruct (Z.of_nat (List.length s) mod 4 =? 0); [|exact Hin].
  destruct (rev s) as [|d r] eqn:Hr; [exact Hin|].
  destruct (Ascii.eqb_spec d pad) as [->|_]; [|exact Hin].
  apply drop_last_pad_keeps; [|exact Hc].
  apply in_rev in Hin. rewrite Hr in Hin. destruct Hin as [E|Hin].
  - congruence.
  - now apply in_rev in Hin.
Qed.

End CodecFacts.

(** The length of the encoded text depends on the length of the bytes
    only: four characters for every three bytes, the last group
    completed. *)
Theorem encode_length (bytes : Uint8Array) :
  Z.of_nat (List.length (encode bytes))
  = 4 * ((Z.of_nat (List.length bytes) + 2) / 3).
Proof.
  unfold encode. rewrite encode_binary, CodecFacts.btoa_length_exact.
  now rewrite length_map.
Qed.

(** The encoded text is made of characters of the base64 alphabet,
    followed by as many [=] as bytes are missing from the last group
    of three; it holds no other character. *)
Theorem encode_shape (bytes : Uint8Array) :
  exists body,
    encode bytes
    = body ++ repeat Base64.pad
                (Z.to_nat ((3 - Z.of_nat (List.length bytes) mod 3) mod 3))
    /\ forallb Base64.in_alphabet body = true.
Proof.
  exists (Base64Facts.unpadded (map fromCharCode bytes)).
  unfold encode.
  rewrite encode_binary, Base64Facts.btoa_split, CodecFacts.padding_repeat.
  rewrite length_map. split; [reflexivity|].
  apply Base64Facts.unpadded_alphabet.
Qed.

(** [decode] does not need the padding: the encoded text with its [=]
    removed decodes to the same bytes. *)
Theorem decode_without_padding (bytes : Uint8Array) :
  decode (filter (fun c => negb (Ascii.eqb c Base64.pad)) (encode bytes))
  = Some bytes.
Proof.
  unfold decode, encode.
  rewrite encode_binary, Base64Facts.btoa_split, filter_app.
  rewrite CodecFacts.unpadded_no_pad, CodecFacts.padding_all_pad, app_nil_r.
  rewrite CodecFacts.atob_unpadded, map_map.
  f_equal. rewrite <- (map_id bytes) at 2.
  apply map_ext. intro b. apply byte_of_ascii_of_byte.
Qed.

(** [decode] skips ASCII white space (tab, line feed, form feed,
    carriage return, space) wherever it stands. *)
Theorem decode_skips_whitespace (s1 s2 : jsstring) (w : ascii) :
  Base64.is_ascii_whitespace w = true ->
  decode (s1 ++ w :: s2) = decode (s1 ++ s2).
Proof.
  intros Hw. unfold decode, Base64.atob.
  rewrite !filter_app. cbn [filter]. now rewrite Hw.
Qed.

Lemma decode_skips_whitespace_witness :
  Base64.is_ascii_whitespace " "%char = true
  /\ decode (str "TW" ++ " "%char :: str "Fu") = decode (str "TW" ++ str "Fu").
Proof.
  split; [reflexivity|]. now apply decode_skips_whitespace.
Defined.

(** [decode] throws on a text holding a character that is neither of
    the alphabet, nor [=], nor white space. *)
Theorem decode_rejects_foreign_character (s : jsstring) (c : ascii) :
  In c s ->
  Base64.in_alphabet c = false ->
  c <> Base64.pad ->
  Base64.is_ascii_whitespace c = false ->
  decode s = None.
Proof.
  intros Hin Ha Hp Hw. unfold decode, Base64.atob.
  set (d := filter _ s).
  assert (Hd : In c (Base64.strip_padding d)).
  { apply CodecFacts.strip_padding_keeps; [|exact Hp].
    apply filter_In. split; [exact Hin|]. now rewrite Hw. }
  destruct (_ =? 1); [reflexivity|].
  replace (forallb Base64.in_alphabet (Base64.strip_padding d)) with false;
    [reflexivity|].
  symmetry. apply not_true_is_false. intros H.
  rewrite forallb_forall in H. specialize (H c Hd). congruence.
Qed.

Lemma decode_rejects_foreign_character_witness :
  In "!"%char (str "TW!u")
  /\ decode (str "TW!u") = None.
Proof.
  assert (H : In "!"%char (str "TW!u")) by (cbn; auto).
  split; [exact H|].
  apply (decode_rejects_foreign_character _ H); [reflexivity | | reflexivity].
  discriminate.
Defined.

(** [encode] is injective: two byte sequences with the same encoded
    text are equal. *)
Theorem encode_injective (a b : Uint8Array) : encode a = encode b -> a = b.
Proof.
  intros H. apply (f_equal decode) in H.
  rewrite !decode_encode in H. now injection H.
Qed.

Lemma encode_injective_witness :
  encode ["M"%byte] = encode ["M"%byte] /\ ["M"%byte] = ["M"%byte].
Proof.
  split; [reflexivity|]. now apply encode_injective.
Defined.

(** ** The resampler in exact arithmetic *)

Lemma Qtrunc_comp p q : (p == q)%Q -> Qtrunc p = Qtrunc q.
Proof.
  intros E. destruct (Qlt_le_dec p 0) as [Hp|Hp].
  - rewrite !Qtrunc_nonpos by lra. now apply Qceiling_comp.
  - rewrite !Qtrunc_nonneg by lra. now apply Qfloor_comp.
Qed.

Lemma Qtrunc_integer x z : (x == inject_Z z)%Q -> Qtrunc x = z.
Proof. intros E. rewrite (Qtrunc_comp E). apply Qtrunc_Z. Qed.

Lemma Qle_bool_false p q : Qle_bool p q = false <-> (q < p)%Q.
Proof.
  split; intros H.
  - apply Qnot_le_lt. intros C. apply Qle_bool_iff in C. congruence.
  - apply not_true_is_false. intros C. apply Qle_bool_iff in C. lra.
Qed.

Lemma elem_at (a : list xnum) (x : Q) (z : Z) :
  (x == inject_Z z)%Q -> 0 <= z ->
  elem a (XFin x) = nth (Z.to_nat z) a NaN.
Proof.
  intros E Hz. unfold elem. cbn [truncate exact Exact.trunc].
  rewrite (Qtrunc_integer E).
  replace (lit z === XFin x)%js with true.
  - replace (0 <=? z) with true by (symmetry; now apply Z.leb_le).
    reflexivity.
  - symmetry. cbn. apply Qeq_bool_iff. now symmetry.
Qed.

Lemma exact_min_integers p q a b :
  (p == inject_Z a)%Q -> (q == inject_Z b)%Q ->
  exists r, Math_min (XFin p) (XFin q) = XFin r
            /\ (r == inject_Z (Z.min a b))%Q.
Proof.
  intros Ep Eq. cbn. unfold Exact.min, Exact.lt. cbn [Exact.is_nan orb].
  destruct (Qle_bool p q) eqn:L; cbn [negb].
  - exists p. split; [reflexivity|].
    apply Qle_bool_iff in L. rewrite Ep, Eq in L. rewrite <- Zle_Qle in L.
    now rewrite Z.min_l.
  - exists q. split; [reflexivity|].
    apply Qle_bool_false in L. rewrite Ep, Eq in L. rewrite <- Zlt_Qlt in L.
    now rewrite Z.min_r by lia.
Qed.

Lemma for_n_ext {S : Type} n (f g : nat -> S -> S) s :
  (forall i r, f i r = g i r) -> for_n n f s = for_n n g s.
Proof.
  intros H. induction n as [|n IH]; [reflexivity|].
  now rewrite !for_n_S, IH, H.
Qed.

Lemma iterations_integer (m : Z) :
  0 <= m -> iterations (XFin (inject_Z m)) = Z.to_nat m.
Proof.
  intros Hm. unfold iterations. cbn [truncate exact Exact.trunc].
  rewrite Qtrunc_Z.
  replace (m <? 0) with false by (symmetry; now apply Z.ltb_ge).
  replace (lit m < XFin (inject_Z m))%js with false; [reflexivity|].
  symmetry. cbn. unfold Exact.lt.
  replace (Qle_bool (inject_Z m) (inject_Z m)) with true; [reflexivity|].
  symmetry. apply Qle_bool_iff. lra.
Qed.

Lemma ToIndex_integer (m : Z) :
  0 <= m < 2 ^ 53 -> ToIndex (XFin (inject_Z m)) = Some (Z.to_nat m).
Proof.
  intros Hm. unfold ToIndex. cbn [truncate exact Exact.trunc].
  rewrite Qtrunc_Z.
  replace ((0 <=? m) && (m <=? 2 ^ 53 - 1)) with true; [reflexivity|].
  symmetry. apply andb_true_iff. split; apply Z.leb_le; lia.
Qed.

(** A list of finite numbers built index by index. *)
Lemma map_seq_finite (g : nat -> xnum) (P : nat -> Q -> Prop) (M : nat) :
  (forall i, (i < M)%nat -> exists v, g i = XFin v /\ P i v) ->
  exists vs,
    map g (seq 0 M) = map XFin vs
    /\ List.length vs = M
    /\ forall i, (i < M)%nat -> P i (nth i vs 0%Q).
Proof.
  induction M as [|M IH]; intros H.
  - exists []. repeat split; auto. intros i Hi. lia.
  - destruct IH as (vs & E & L & HP); [intros i Hi; apply H; lia|].
    destruct (H M) as (v & Ev & Pv); [lia|].
    exists (vs ++ [v]). rewrite seq_S, !map_app, E. cbn [map Nat.add].
    rewrite Ev. split; [reflexivity|]. split.
    + rewrite length_app, L. cbn. lia.
    + intros i Hi. destruct (Nat.eq_dec i M) as [->|D].
      * rewrite app_nth2, L, Nat.sub_diag by lia. exact Pv.
      * rewrite app_nth1 by lia. apply HP. lia.
Qed.

(** The value the loop of [resampleLinear] stores at index [i]. *)
Definition resample_value {num : Type} {N : Number num}
    (inputData : list num) (ratio : num) (i : nat) : num :=
  let C1 := (idx i * ratio)%js in
  let C0 := Math_floor C1 in
  let C2 := Math_min (C0 + lit 1)%js (len inputData - lit 1)%js in
  if (C0 < lit 0)%js || (C0 >= len inputData)%js
  then Math_fround (lit 0)
  else
    let k := (C1 - C0)%js in
    Math_fround (elem inputData C0 * (lit 1 - k) + elem inputData C2 * k)%js.

Lemma resampleLinear_values {num : Type} {N : Number num}
    (inputData : list num) (inputSr outputSr : num) :
  (inputSr === outputSr)%js = false ->
  resampleLinear inputData inputSr outputSr
  = let ratio := (inputSr / outputSr)%js in
    let outputLength := Math_floor (len inputData / ratio)%js in
    match new_Float32Array outputLength with
    | None => None
    | Some result =>
        Some (for_n (iterations outputLength)
                (fun i result =>
                   store result i (resample_value inputData ratio i))
                result)
    end.
Proof.
  intros Hne. unfold resampleLinear. rewrite Hne. cbv zeta.
  destruct (new_Float32Array _) as [result|]; [|reflexivity].
  f_equal. apply for_n_ext. intros i r. unfold resample_value. cbv zeta.
  destruct (_ || _); reflexivity.
Qed.

Lemma nth_map_finite (qs : list Q) (i : nat) :
  (i < List.length qs)%nat ->
  nth i (map XFin qs) NaN = XFin (nth i qs 0%Q).
Proof.
  intros Hi. rewrite (nth_indep _ NaN (XFin 0%Q)) by now rewrite length_map.
  apply map_nth.
Qed.

Lemma exact_lt_fin p q : (XFin p < XFin q)%js = negb (Qle_bool q p).
Proof. reflexivity. Qed.

Lemma exact_le_fin p q :
  (XFin p <= XFin q)%js = negb (Qle_bool q p) || Qeq_bool p q.
Proof. reflexivity. Qed.

Lemma resample_value_exact (qs : list Q) (rho : Q) (i : nat) :
  (0 < rho)%Q ->
  (inject_Z (Z.of_nat i) * rho + rho <= inject_Z (Z.of_nat (List.length qs)))%Q ->
  exists v,
    resample_value (map XFin qs) (XFin rho) i = XFin v
    /\ (v == interpolate qs (inject_Z (Z.of_nat i) * rho))%Q.
Proof.
  intros Hrho Hi.
  set (n := Z.of_nat (List.length qs)) in *.
  set (pos := (inject_Z (Z.of_nat i) * rho)%Q) in *.
  set (c0 := Qfloor pos).
  assert (Hpos : (0 <= pos)%Q).
  { unfold pos. apply Qmult_le_0_compat; [|lra].
    rewrite <- (Zle_Qle 0). lia. }
  assert (H0 : 0 <= c0).
  { change 0 with (Qfloor 0). now apply Qfloor_resp_le. }
  assert (Hn : c0 < n).
  { pose proof (Qfloor_le pos) as F. fold c0 in F.
    rewrite Zlt_Qlt. lra. }
  unfold resample_value. cbv zeta.
  unfold idx, len. rewrite length_map. fold n.
  cbn [lit exact num_mul Exact.mul Math_floor Exact.floor].
  fold pos. fold c0.
  (* the defensive branch is not taken *)
  replace (XFin (inject_Z c0) < XFin (inject_Z 0))%js with false.
  2:{ symmetry. rewrite exact_lt_fin.
      replace (Qle_bool (inject_Z 0) (inject_Z c0)) with true; [reflexivity|].
      symmetry. apply Qle_bool_iff. rewrite <- Zle_Qle. exact H0. }
  replace (XFin (inject_Z c0) >= XFin (inject_Z n))%js with false.
  2:{ symmetry. rewrite exact_le_fin.
      replace (Qle_bool (inject_Z c0) (inject_Z n)) with true.
      2:{ symmetry. apply Qle_bool_iff. rewrite <- Zle_Qle. lia. }
      cbn [negb orb]. apply not_true_is_false. intros E.
      apply Qeq_bool_iff in E. rewrite inject_Z_injective in E. lia. }
  cbn [orb].
  (* the two neighbours *)
  cbn [num_add num_sub exact Exact.add Exact.sub Exact.neg].
  destruct (@exact_min_integers (inject_Z c0 + inject_Z 1)
              (inject_Z n + - inject_Z 1) (c0 + 1) (n - 1))
    as (r & Er & Vr).
  { now rewrite inject_Z_plus. }
  { unfold Z.sub. now rewrite inject_Z_plus, inject_Z_opp. }
  rewrite Er.
  rewrite (@elem_at _ (inject_Z c0) c0) by (try reflexivity; lia).
  rewrite (@elem_at _ r (Z.min (c0 + 1) (n - 1))) by (try exact Vr; lia).
  rewrite !nth_map_finite by lia.
  cbn [Math_fround exact num_mul num_add Exact.mul Exact.add].
  eexists. split; [reflexivity|].
  unfold interpolate. cbv zeta. fold n. fold c0.
  change (inject_Z 1) with 1%Q. ring.
Qed.

Lemma exact_div_fin p q :
  ~ (q == 0)%Q -> (XFin p / XFin q)%js = XFin (p / q).
Proof.
  intros H. cbn. unfold Exact.div.
  replace (Exact.is_zero q) with false; [reflexivity|].
  symmetry. now apply exact_is_zero.
Qed.

Lemma resample_exact (qs : list Q) (r1 r2 : Q) :
  (0 < r1)%Q -> (0 < r2)%Q -> ~ (r1 == r2)%Q ->
  Qfloor (inject_Z (Z.of_nat (List.length qs)) / (r1 / r2)) < 2 ^ 53 ->
  exists vs,
    resampleLinear (map XFin qs) (XFin r1) (XFin r2) = Some (map XFin vs)
    /\ Z.of_nat (List.length vs)
       = Qfloor (inject_Z (Z.of_nat (List.length qs)) / (r1 / r2))
    /\ forall i, (i < List.length vs)%nat ->
         (nth i vs 0 == interpolate qs (inject_Z (Z.of_nat i) * (r1 / r2)))%Q.
Proof.
  intros H1 H2 Hne Hb.
  set (n := Z.of_nat (List.length qs)) in *.
  set (rho := (r1 / r2)%Q) in *.
  assert (Hrho : (0 < rho)%Q) by (apply Qlt_shift_div_l; lra).
  set (m := Qfloor (inject_Z n / rho)) in *.
  assert (Hn0 : (0 <= inject_Z n)%Q) by (rewrite <- (Zle_Qle 0); lia).
  assert (Hm : 0 <= m).
  { change 0 with (Qfloor 0). apply Qfloor_resp_le.
    apply Qle_shift_div_l; lra. }
  assert (Hs : (XFin r1 === XFin r2)%js = false).
  { cbn. apply not_true_is_false. intros E. now apply Qeq_bool_iff in E. }
  rewrite (resampleLinear_values _ _ _ Hs). cbv zeta.
  rewrite exact_div_fin by lra. fold rho.
  unfold len at 1 2. rewrite length_map. fold n.
  change (lit n) with (XFin (inject_Z n)).
  rewrite exact_div_fin by lra.
  cbn [Math_floor exact Exact.floor]. fold m.
  unfold new_Float32Array. rewrite ToIndex_integer by lia.
  rewrite iterations_integer by lia.
  rewrite for_n_store_all by now rewrite repeat_length.
  rewrite repeat_length.
  destruct (@map_seq_finite
              (resample_value (map XFin qs) (XFin rho))
              (fun i v =>
                 (v == interpolate qs (inject_Z (Z.of_nat i) * rho))%Q)
              (Z.to_nat m))
    as (vs & E & L & HP).
  { intros i Hi. apply resample_value_exact; [exact Hrho|].
    fold n.
    assert (F : (inject_Z m <= inject_Z n / rho)%Q) by apply Qfloor_le.
    assert (G : (inject_Z (Z.of_nat i) + 1 <= inject_Z m)%Q).
    { change 1%Q with (inject_Z 1). rewrite <- inject_Z_plus, <- Zle_Qle.
      lia. }
    assert (K : (inject_Z m * rho <= inject_Z n)%Q).
    { apply (Qmult_le_compat_r _ _ rho) in F; [|lra].
      assert (S : (inject_Z n / rho * rho == inject_Z n)%Q)
        by (field; lra).
      now rewrite S in F. }
    apply (Qmult_le_compat_r _ _ rho) in G; [|lra].
    assert (S : ((inject_Z (Z.of_nat i) + 1) * rho
                 == inject_Z (Z.of_nat i) * rho + rho)%Q) by ring.
    rewrite S in G. lra. }
  exists vs. split; [now rewrite E|]. split; [lia|].
  intros i Hi. apply HP. lia.
Qed.

Lemma position_in_range (n : Z) (rho : Q) (i : nat) :
  (0 < rho)%Q ->
  Z.of_nat i < Qfloor (inject_Z n / rho) ->
  (inject_Z (Z.of_nat i) * rho + rho <= inject_Z n)%Q.
Proof.
  intros Hrho Hi.
  assert (F : (inject_Z (Qfloor (inject_Z n / rho)) <= inject_Z n / rho)%Q)
    by apply Qfloor_le.
  assert (G : (inject_Z (Z.of_nat i) + 1
               <= inject_Z (Qfloor (inject_Z n / rho)))%Q).
  { change 1%Q with (inject_Z 1). rewrite <- inject_Z_plus, <- Zle_Qle. lia. }
  apply (Qmult_le_compat_r _ _ rho) in F; [|lra].
  assert (S : (inject_Z n / rho * rho == inject_Z n)%Q) by (field; lra).
  rewrite S in F.
  apply (Qmult_le_compat_r _ _ rho) in G; [|lra].
  assert (S' : ((inject_Z (Z.of_nat i) + 1) * rho
                == inject_Z (Z.of_nat i) * rho + rho)%Q) by ring.
  rewrite S' in G. lra.
Qed.

Lemma interpolate_bounds (qs : list Q) (pos lo hi : Q) :
  (0 <= pos)%Q ->
  (pos < inject_Z (Z.of_nat (List.length qs)))%Q ->
  Forall (fun q => (lo <= q <= hi)%Q) qs ->
  (lo <= interpolate qs pos <= hi)%Q.
Proof.
  intros H0 Hn Hq. unfold interpolate. cbv zeta.
  set (n := Z.of_nat (List.length qs)) in *.
  set (c0 := Qfloor pos).
  assert (Hc0 : 0 <= c0 < n).
  { split.
    - change 0 with (Qfloor 0). now apply Qfloor_resp_le.
    - pose proof (Qfloor_le pos) as F. fold c0 in F. rewrite Zlt_Qlt. lra. }
  pose proof (Qfloor_le pos) as F1. pose proof (Qlt_floor pos) as F2.
  fold c0 in F1, F2.
  assert (E : (inject_Z (c0 + 1) == inject_Z c0 + 1)%Q)
    by (rewrite inject_Z_plus; reflexivity).
  rewrite E in F2.
  set (frac := (pos - inject_Z c0)%Q).
  assert (Hf : (0 <= frac /\ frac <= 1)%Q) by (unfold frac; split; lra).
  rewrite Forall_forall in Hq.
  assert (Ha : (lo <= nth (Z.to_nat c0) qs 0 <= hi)%Q).
  { apply Hq, nth_In. lia. }
  assert (Hb : (lo <= nth (Z.to_nat (Z.min (c0 + 1) (n - 1))) qs 0 <= hi)%Q).
  { apply Hq, nth_In. lia. }
  set (a := nth (Z.to_nat c0) qs 0%Q) in *.
  set (b := nth (Z.to_nat (Z.min (c0 + 1) (n - 1))) qs 0%Q) in *.
  destruct Hf as [Hf0 Hf1], Ha as [Ha0 Ha1], Hb as [Hb0 Hb1].
  assert (Hg : (0 <= 1 - frac)%Q) by lra.
  pose proof (Qmult_le_compat_r _ _ _ Ha0 Hg) as A0.
  pose proof (Qmult_le_compat_r _ _ _ Ha1 Hg) as A1.
  pose proof (Qmult_le_compat_r _ _ _ Hb0 Hf0) as B0.
  pose proof (Qmult_le_compat_r _ _ _ Hb1 Hf0) as B1.
  assert (L : (lo * (1 - frac) + lo * frac == lo)%Q) by ring.
  assert (U : (hi * (1 - frac) + hi * frac == hi)%Q) by ring.
  split.
  - rewrite <- L. apply Qplus_le_compat; assumption.
  - rewrite <- U. apply Qplus_le_compat; assumption.
Qed.

Lemma interpolate_integer (qs : list Q) (pos : Q) (z : Z) :
  (pos == inject_Z z)%Q ->
  (interpolate qs pos == nth (Z.to_nat z) qs 0)%Q.
Proof.
  intros E. unfold interpolate. cbv zeta.
  rewrite (Qfloor_comp _ _ E), Qfloor_Z, E. ring.
Qed.



(** Resampling creates no new extreme: if every input sample lies in
    [[lo, hi]], so does every output sample.  (Exact arithmetic.) *)
Theorem resampleLinear_within_range (qs : list Q) (r1 r2 lo hi : Q) :
  (0 < r1)%Q -> (0 < r2)%Q -> ~ (r1 == r2)%Q ->
  Qfloor (inject_Z (Z.of_nat (List.length qs)) / (r1 / r2)) < 2 ^ 53 ->
  Forall (fun q => (lo <= q <= hi)%Q) qs ->
  exists vs,
    resampleLinear (map XFin qs) (XFin r1) (XFin r2) = Some (map XFin vs)
    /\ Forall (fun v => (lo <= v <= hi)%Q) vs.
Proof.
  intros H1 H2 Hne Hb Hq.
  destruct (@resample_exact qs r1 r2 H1 H2 Hne Hb) as (vs & E & L & HV).
  exists vs. split; [exact E|].
  assert (Hrho : (0 < r1 / r2)%Q) by (apply Qlt_shift_div_l; lra).
  apply Forall_forall. intros v Hv.
  destruct (In_nth _ _ 0%Q Hv) as (i & Hi & <-).
  rewrite (HV i Hi).
  assert (Hp : (inject_Z (Z.of_nat i) * (r1 / r2) + r1 / r2
                <= inject_Z (Z.of_nat (List.length qs)))%Q).
  { apply position_in_range; [exact Hrho | lia]. }
  apply interpolate_bounds; [| lra | exact Hq].
  apply Qmult_le_0_compat; [|lra]. rewrite <- (Zle_Qle 0). lia.
Qed.

Lemma resampleLinear_within_range_witness :
  exists vs,
    resampleLinear (map XFin [0; 1; 0; -1]%Q) (XFin 8000) (XFin 16000)
    = Some (map XFin vs)
    /\ Forall (fun v => (-1 <= v <= 1)%Q) vs.
Proof.
  apply (@resampleLinear_within_range [0; 1; 0; -1]%Q 8000 16000 (-1) 1);
    try reflexivity; try discriminate.
  repeat constructor; discriminate.
Defined.

(** When the input rate is [k] times the output rate, [k] an integer
    above 1, the output is the input decimated: output sample [i] is
    input sample [k * i], the samples in between being dropped, not
    averaged.  (Exact arithmetic.) *)
Theorem resampleLinear_decimates (qs : list Q) (r : Q) (k : Z) :
  (0 < r)%Q -> 1 < k ->
  Z.of_nat (List.length qs) / k < 2 ^ 53 ->
  exists vs,
    resampleLinear (map XFin qs) (XFin (inject_Z k * r)) (XFin r)
    = Some (map XFin vs)
    /\ Z.of_nat (List.length vs) = Z.of_nat (List.length qs) / k
    /\ forall i, (i < List.length vs)%nat ->
         (nth i vs 0 == nth (i * Z.to_nat k) qs 0)%Q.
Proof.
  intros Hr Hk Hb.
  assert (Hk' : (1 < inject_Z k)%Q) by (rewrite <- (Zlt_Qlt 1); lia).
  assert (Hrho : (inject_Z k * r / r == inject_Z k)%Q) by (field; lra).
  assert (Hm : Qfloor (inject_Z (Z.of_nat (List.length qs))
                       / (inject_Z k * r / r))
               = Z.of_nat (List.length qs) / k).
  { transitivity (Qfloor (inject_Z (Z.of_nat (List.length qs)) * inject_Z 1
                          / inject_Z k)).
    - apply Qfloor_comp. rewrite Hrho. change (inject_Z 1) with 1%Q.
      field. lra.
    - rewrite Qfloor_integer_ratio by lia. now rewrite Z.mul_1_r. }
  destruct (@resample_exact qs (inject_Z k * r) r) as (vs & E & L & HV).
  - apply Qmult_lt_0_compat; lra.
  - exact Hr.
  - intros C. assert (C' : (inject_Z k * r == 1 * r)%Q) by (rewrite C; ring).
    apply Qmult_inj_r in C'; lra.
  - now rewrite Hm.
  - exists vs. split; [exact E|]. split; [now rewrite L|].
    intros i Hi. rewrite (HV i Hi).
    rewrite (@interpolate_integer qs _ (Z.of_nat i * k)).
    + replace (Z.to_nat (Z.of_nat i * k)) with (i * Z.to_nat k)%nat by lia.
      reflexivity.
    + rewrite Hrho, inject_Z_mult. reflexivity.
Qed.

Lemma resampleLinear_decimates_witness :
  exists vs,
    resampleLinear (map XFin [1; 2; 3; 4; 5; 6; 7]%Q)
      (XFin (inject_Z 3 * 16000)) (XFin 16000)
    = Some (map XFin vs)
    /\ Z.of_nat (List.length vs) = 2
    /\ (nth 1 vs 0 == 4)%Q.
Proof.
  destruct (@resampleLinear_decimates [1; 2; 3; 4; 5; 6; 7]%Q 16000 3)
    as (vs & E & L & HV); [reflexivity | reflexivity | reflexivity |].
  exists vs. split; [exact E|]. split; [exact L|].
  assert (H1 : (1 < List.length vs)%nat).
  { change (_ / 3) with 2 in L. lia. }
  rewrite (HV 1%nat H1). reflexivity.
Defined.

(** An empty input gives an empty output whatever the two rates are
    (zero, negative, infinite or [NaN] included).  (Exact arithmetic.) *)
Lemma resampleLinear_empty (r1 r2 : xnum) :
  resampleLinear [] r1 r2 = Some [].
Proof.
  unfold resampleLinear.
  destruct (r1 === r2)%js; [reflexivity|].
  cbv zeta. unfold len. cbn [List.length Z.of_nat lit exact].
  destruct (r1 / r2)%js as [| s | rho] eqn:E; try reflexivity.
  cbn [num_div exact]. unfold Exact.div.
  destruct (Exact.is_zero rho) eqn:Z; [reflexivity|].
  assert (F : Qfloor (inject_Z 0 / rho) = 0).
  { change 0 with (Qfloor 0) at 2. apply Qfloor_comp.
    apply exact_is_zero in Z. change (inject_Z 0) with 0%Q. field. exact Z. }
  cbn [Math_floor exact Exact.floor]. rewrite F. reflexivity.
Qed.

Lemma exact_eq_false p q : ~ (p == q)%Q -> (XFin p === XFin q)%js = false.
Proof.
  intros H. change (XFin p === XFin q)%js with (Qeq_bool p q).
  apply not_true_is_false. intros E. now apply Qeq_bool_iff in E.
Qed.



(** ** The quantizer and [createBlob] *)

Lemma wrap16_range z : -32768 <= wrap16 z <= 32767.
Proof.
  unfold wrap16. destruct (Z.ltb_spec (z mod 65536) 32768);
    Z.div_mod_to_equations; lia.
Qed.

Lemma ToInt16_range {num : Type} {N : Number num} (x : num) :
  -32768 <= ToInt16 x <= 32767.
Proof.
  unfold ToInt16. destruct (truncate x); [apply wrap16_range | lia].
Qed.

(** Whatever the samples are, and in either arithmetic, the quantizer
    gives one 16-bit value per sample, each in [[-32768, 32767]]. *)
Lemma quantize_range :
  forall (num : Type) (N : Number num) (a : list num),
    List.length (quantize a) = List.length a
    /\ Forall (fun v => -32768 <= v <= 32767) (quantize a).
Proof.
  intros num N a. rewrite quantize_map. split; [apply length_map|].
  apply Forall_forall. intros v Hv. apply in_map_iff in Hv.
  destruct Hv as (x & <- & _). apply ToInt16_range.
Qed.

Lemma quantize_map_quantized (a : list xnum) :
  quantize a = map quantized a.
Proof.
  rewrite quantize_map. apply map_ext. intros [| [] | q]; try reflexivity.
  apply quantize_sample_exact.
Qed.

(** The quantizer on every exact number: a finite sample is scaled,
    truncated and clamped; [NaN] becomes 0; the infinities saturate. *)
Theorem quantize_every_number (a : list xnum) :
  quantize a = map quantized a.
Proof.
  apply quantize_map_quantized.
Qed.

(** The quantizer keeps the order of samples: it cannot wrap around. *)
Theorem quantize_monotone (s t : Q) :
  (s <= t)%Q ->
  exists u v, quantize [XFin s] = [u] /\ quantize [XFin t] = [v] /\ u <= v.
Proof.
  intros H. exists (quantized (XFin s)), (quantized (XFin t)).
  rewrite !quantize_map_quantized. repeat split.
  cbn [quantized]. unfold clamp16.
  assert (M : Qtrunc (s * 32768) <= Qtrunc (t * 32768)).
  { apply Qtrunc_mono. lra. }
  lia.
Qed.

Lemma quantize_monotone_witness :
  (1 # 3 <= 1 # 2)%Q
  /\ exists u v,
      quantize [XFin (1 # 3)] = [u] /\ quantize [XFin (1 # 2)] = [v] /\ u <= v.
Proof.
  assert (H : (1 # 3 <= 1 # 2)%Q) by discriminate.
  split; [exact H|]. exact (@quantize_monotone (1 # 3) (1 # 2) H).
Defined.

Lemma int16_bytes_length (l : list Z) :
  List.length (flat_map int16_bytes l) = (2 * List.length l)%nat.
Proof.
  induction l as [|v l IH]; [reflexivity|].
  cbn [flat_map int16_bytes app List.length]. cbv zeta.
  cbn [app List.length]. rewrite IH. lia.
Qed.

(** What [createBlob] returns carries the quantized samples: its
    payload decodes to two bytes per sample of the audio processed
    (the input, resampled to 16000 Hz unless it is at that rate), the
    16-bit elements of these bytes, low byte first, are the quantized
    samples, and its tag is ["audio/pcm;rate=16000"].  (Either
    arithmetic.) *)
Theorem createBlob_payload :
  forall (num : Type) (N : Number num) (pcmData : list num) (rate : num)
         (blob : Blob),
    createBlob pcmData rate = Some blob ->
    exists samples bytes,
      (if (rate !== lit 16000)%js
       then resampleLinear pcmData rate (lit 16000)
       else Some pcmData) = Some samples
      /\ decode (data blob) = Some bytes
      /\ List.length bytes = (2 * List.length samples)%nat
      /\ int16_elements bytes = quantize samples
      /\ mimeType blob = str "audio/pcm;rate=16000".
Proof.
  intros num N pcmData rate blob H. unfold createBlob in H.
  destruct (if (rate !== lit 16000)%js then _ else _) as [samples|];
    [|discriminate].
  injection H as <-. exists samples, (flat_map int16_bytes (quantize samples)).
  split; [reflexivity|]. cbn [data mimeType].
  split; [apply decode_encode|].
  split; [rewrite int16_bytes_length; f_equal; apply quantize_range|].
  split; [|reflexivity].
  apply int16_elements_bytes, quantize_range.
Qed.

Lemma createBlob_payload_witness :
  exists blob samples bytes,
    createBlob [0.5; -0.5; 1]%float 16000%float = Some blob
    /\ samples = [0.5; -0.5; 1]%float
    /\ decode (data blob) = Some bytes
    /\ int16_elements bytes = [16384; -16384; 32767].
Proof.
  destruct (createBlob [0.5; -0.5; 1]%float 16000%float) as [blob|] eqn:E;
    [|discriminate E].
  destruct (@createBlob_payload float binary64 _ _ blob E)
    as (samples & bytes & Hs & Hd & _ & Hi & _).
  injection Hs as <-.
  exists blob, [0.5; -0.5; 1]%float, bytes.
  split; [reflexivity|]. split; [reflexivity|]. split; [exact Hd|].
  rewrite Hi. reflexivity.
Defined.



(** ** [decodeAudioData] in exact arithmetic *)

Lemma list_ind2 {A : Type} (P : list A -> Prop) :
  P [] -> (forall a, P [a]) -> (forall a b l, P l -> P (a :: b :: l)) ->
  forall l, P l.
Proof.
  intros P0 P1 P2.
  assert (H : forall l, P l /\ forall a, P (a :: l)).
  { induction l as [|x l [IH0 IH1]]; split; auto. }
  intro l. apply H.
Qed.

Lemma int16_elements_length (bytes : list byte) :
  Z.of_nat (List.length (int16_elements bytes))
  = Z.of_nat (List.length bytes) / 2.
Proof.
  induction bytes as [| a | a b l IH] using list_ind2; try reflexivity.
  change (int16_elements (a :: b :: l))
    with (wrap16 (Z_of_byte a + 256 * Z_of_byte b) :: int16_elements l).
  cbn [List.length]. rewrite !Nat2Z.inj_succ, IH.
  Z.div_mod_to_equations. lia.
Qed.

Lemma int16_elements_range (bytes : list byte) :
  Forall (fun v => -32768 <= v <= 32767) (int16_elements bytes).
Proof.
  induction bytes as [| a | a b l IH] using list_ind2;
    try (constructor; fail).
  change (int16_elements (a :: b :: l))
    with (wrap16 (Z_of_byte a + 256 * Z_of_byte b) :: int16_elements l).
  constructor; [apply wrap16_range | exact IH].
Qed.

Lemma half_exact (n : Z) :
  0 <= n -> Qtrunc (inject_Z n / inject_Z 2) = n / 2.
Proof.
  intros Hn. rewrite Qtrunc_nonneg.
  - rewrite <- (Z.mul_1_r n) at 2.
    rewrite <- Qfloor_integer_ratio by lia. apply Qfloor_comp.
    change (inject_Z 1) with 1%Q. change (inject_Z 2) with 2%Q. field.
  - apply Qle_shift_div_l; [reflexivity|].
    assert ((0 <= inject_Z n)%Q) by (rewrite <- (Zle_Qle 0); lia). lra.
Qed.

Lemma elem16_at (a : list Z) (x : Q) (i : nat) :
  (x == inject_Z (Z.of_nat i))%Q -> (i < List.length a)%nat ->
  elem16 a (XFin x) = XFin (inject_Z (nth i a 0)).
Proof.
  intros E Hi. unfold elem16. cbn [truncate exact Exact.trunc].
  rewrite (Qtrunc_integer E).
  replace (lit (Z.of_nat i) === XFin x)%js with true.
  2:{ symmetry. change (Qeq_bool (inject_Z (Z.of_nat i)) x = true).
      apply Qeq_bool_iff. now symmetry. }
  replace (0 <=? Z.of_nat i) with true by (symmetry; apply Z.leb_le; lia).
  cbn [andb]. rewrite Nat2Z.id.
  rewrite (nth_error_nth' a 0 Hi). reflexivity.
Qed.

Lemma dequantize_mono (a : list Z) (numFrames : xnum) (init : list xnum) :
  List.length init = List.length a ->
  (List.length a <= iterations numFrames)%nat ->
  dequantize a (lit 1) numFrames 0 init
  = map (fun v => XFin (inject_Z v / inject_Z 32768)) a.
Proof.
  intros Hl Hi. unfold dequantize.
  rewrite for_n_store_all by lia. rewrite Hl.
  rewrite <- (map_nth_seq (fun v => XFin (inject_Z v / inject_Z 32768)) a 0).
  apply map_ext_in. intros i Hin. apply in_seq in Hin.
  change (idx i * lit 1 + idx 0)%js
    with (XFin (inject_Z (Z.of_nat i) * inject_Z 1 + inject_Z 0)).
  rewrite (@elem16_at a _ i); [reflexivity| |lia].
  change (inject_Z 1) with 1%Q. change (inject_Z 0) with 0%Q.
  ring.
Qed.

Lemma decodeAudioData_mono (data : Uint8Array) :
  2 <= Z.of_nat (List.length data) ->
  Z.of_nat (List.length data) / 2 < 2 ^ 32 ->
  decodeAudioData data outputAudioContext (lit 24000) (lit 1)
  = Some {| buffer_sampleRate := XFin 24000;
            buffer_length := List.length (int16_elements data);
            channels :=
              [map (fun v => XFin (inject_Z v / inject_Z 32768))
                 (int16_elements data)] |}.
Proof.
  intros Hn Hb.
  set (n := Z.of_nat (List.length data)) in *.
  pose proof (int16_elements_length data) as Hlen. fold n in Hlen.
  set (a := int16_elements data) in *.
  assert (Hn0 : (0 <= inject_Z n)%Q) by (rewrite <- (Zle_Qle 0); lia).
  assert (Hn2 : (2 <= inject_Z n)%Q) by (rewrite <- (Zle_Qle 2); lia).
  unfold decodeAudioData. cbv zeta.
  unfold len. fold n. change (lit n) with (XFin (inject_Z n)).
  change (@lit xnum exact 2) with (XFin (inject_Z 2)).
  change (@lit xnum exact 1) with (XFin (inject_Z 1)).
  rewrite (@exact_div_fin (inject_Z n) (inject_Z 2)) by discriminate.
  rewrite (@exact_div_fin _ (inject_Z 1)) by discriminate.
  set (nf := (inject_Z n / inject_Z 2 / inject_Z 1)%Q).
  assert (Hnf : (nf == inject_Z n / inject_Z 2)%Q).
  { unfold nf. change (inject_Z 1) with 1%Q. field. }
  assert (Htr : Qtrunc nf = n / 2).
  { rewrite (Qtrunc_comp Hnf). apply half_exact. lia. }
  assert (Hhalf : 1 <= n / 2) by (Z.div_mod_to_equations; lia).
  replace (XFin nf === lit 0)%js with false.
  2:{ symmetry. apply exact_eq_false. rewrite Hnf.
      change (inject_Z 0) with 0%Q. change (inject_Z 2) with 2%Q.
      intros C. assert ((inject_Z n == 0)%Q) by (rewrite <- (Qmult_div_r (inject_Z n) 2), C by discriminate; ring). lra. }
  cbn [isNaN exact Exact.is_nan orb].
  (* the buffer *)
  unfold createBuffer at 1.
  change (Math_fround (@lit xnum exact 24000)) with (XFin (inject_Z 24000)).
  cbn [truncate exact Exact.trunc].
  change (ToUint32 (XFin (inject_Z 1))) with 1.
  unfold ToUint32. cbn [truncate exact Exact.trunc]. rewrite Htr.
  rewrite Z.mod_small by lia.
  replace (n / 2 =? 0) with false by (symmetry; apply Z.eqb_neq; lia).
  change (negb (lit 0 < XFin (inject_Z 24000))%js) with false.
  cbn [Z.eqb orb].
  (* the view *)
  unfold ToIndex. cbn [truncate exact Exact.trunc].
  rewrite half_exact by lia.
  replace ((0 <=? n / 2) && (n / 2 <=? 2 ^ 53 - 1)) with true.
  2:{ symmetry. apply andb_true_iff. split; apply Z.leb_le; lia. }
  assert (Hm : Z.to_nat (n / 2) = List.length a) by lia.
  rewrite Hm, firstn_all.
  (* the loops *)
  change (iterations (XFin (inject_Z 1))) with 1%nat.
  unfold for_n at 1. cbn [seq fold_left].
  cbn [channels Z.to_nat].
  change (Pos.to_nat 1) with 1%nat.
  cbn [repeat nth_error store buffer_sampleRate buffer_length channels].
  fold a.
  change (XFin (inject_Z 1)) with (@lit xnum exact 1).
  rewrite dequantize_mono.
  - reflexivity.
  - apply repeat_length.
  - unfold iterations. cbn [truncate exact Exact.trunc]. rewrite Htr.
    replace (n / 2 <? 0) with false by (symmetry; apply Z.ltb_ge; lia).
    destruct (lit (n / 2) < XFin nf)%js; lia.
Qed.

Lemma decodeAudioData_mono_frames (data : Uint8Array) :
  2 <= Z.of_nat (List.length data) ->
  Z.of_nat (List.length data) / 2 < 2 ^ 32 ->
  exists buffer samples,
    decodeAudioData data outputAudioContext (lit 24000) (lit 1) = Some buffer
    /\ Z.of_nat (buffer_length buffer) = Z.of_nat (List.length data) / 2
    /\ channels buffer = [map XFin samples]
    /\ samples = map (fun v => inject_Z v / 32768)%Q (int16_elements data)
    /\ Forall (fun s => (-1 <= s < 1)%Q) samples
    /\ has_value (duration buffer)
         (inject_Z (Z.of_nat (List.length data) / 2) / 24000).
Proof.
  intros Hn Hb. rewrite (decodeAudioData_mono data Hn Hb).
  eexists _, _. split; [reflexivity|].
  cbn [buffer_length channels]. split; [apply int16_elements_length|].
  split; [now rewrite map_map|]. split; [reflexivity|]. split.
  - apply Forall_forall. intros s Hs. apply in_map_iff in Hs.
    destruct Hs as (v & <- & Hv).
    pose proof (int16_elements_range data) as R.
    rewrite Forall_forall in R. specialize (R v Hv).
    assert (A : (inject_Z (-32768) <= inject_Z v)%Q)
      by (rewrite <- Zle_Qle; lia).
    assert (B : (inject_Z v < inject_Z 32768)%Q)
      by (rewrite <- Zlt_Qlt; lia).
    change (inject_Z (-32768)) with (-32768)%Q in A.
    change (inject_Z 32768) with 32768%Q in B.
    cbv beta. unfold Qdiv. change (/ inject_Z 32768)%Q with (1 # 32768)%Q.
    split; lra.
  - unfold duration, idx. cbn [buffer_length buffer_sampleRate].
    change (lit ?z / XFin 24000)%js with (XFin (inject_Z z / 24000)).
    unfold has_value, xeq. now rewrite int16_elements_length.
Qed.

(** [decodeAudioData], called as [onmessage] calls it (mono, 24000 Hz),
    on two bytes or more: the buffer has one frame per pair of bytes,
    an odd last byte being ignored; the sample of a frame is the signed
    16-bit value of its pair, low byte first, divided by 32768, hence
    in [[-1, 1)]; and the buffer lasts [frames / 24000].  (Exact
    arithmetic.) *)
Theorem decodeAudioData_frames (data : Uint8Array) :
  2 <= Z.of_nat (List.length data) ->
  Z.of_nat (List.length data) / 2 < 2 ^ 32 ->
  exists buffer samples,
    decodeAudioData data outputAudioContext (lit 24000) (lit 1) = Some buffer
    /\ Z.of_nat (buffer_length buffer) = Z.of_nat (List.length data) / 2
    /\ channels buffer = [map XFin samples]
    /\ samples = map (fun v => inject_Z v / 32768)%Q (int16_elements data)
    /\ Forall (fun s => (-1 <= s < 1)%Q) samples
    /\ has_value (duration buffer)
         (inject_Z (Z.of_nat (List.length data) / 2) / 24000).
Proof.
  intros H2 Hb. exact (@decodeAudioData_mono_frames data H2 Hb).
Qed.

Lemma decodeAudioData_frames_witness :
  exists buffer,
    decodeAudioData [x00; x40; x00; xc0; xff] outputAudioContext
      (lit 24000) (lit 1) = Some buffer
    /\ Z.of_nat (buffer_length buffer) = 2
    /\ exists s1 s2, channels buffer = [[XFin s1; XFin s2]]
                     /\ (s1 == 1 # 2)%Q /\ (s2 == - (1 # 2))%Q.
Proof.
  destruct (@decodeAudioData_frames [x00; x40; x00; xc0; xff])
    as (buffer & samples & E & L & C & S & _ & _);
    [discriminate | reflexivity |].
  exists buffer. split; [exact E|]. split; [exact L|].
  rewrite C, S. eexists _, _. split; [reflexivity|].
  split; reflexivity.
Defined.

(** [decodeAudioData], called as [onmessage] calls it: it throws on a
    single byte and on nothing else (below 2^33 bytes), and on no byte
    at all it returns one silent frame.  (Exact arithmetic.) *)
Theorem decodeAudioData_edges (data : Uint8Array) :
  Z.of_nat (List.length data) / 2 < 2 ^ 32 ->
  (decodeAudioData data outputAudioContext (@lit xnum exact 24000) (lit 1)
   = None
   <-> List.length data = 1%nat)
  /\ (data = [] ->
      decodeAudioData data outputAudioContext (lit 24000) (lit 1)
      = Some (silence (XFin 24000) 1)).
Proof.
  intros Hb.
  destruct data as [|b [|c data]].
  - split; [split; discriminate | reflexivity].
  - split; [split; reflexivity | discriminate].
  - assert (Hn : 2 <= Z.of_nat (List.length (b :: c :: data))).
    { cbn [List.length]. lia. }
    destruct (@decodeAudioData_mono_frames _ Hn Hb)
      as (buffer & samples & E & _).
    rewrite E.
    split; [split; intros H; [discriminate H | cbn in H; discriminate H]|].
    discriminate.
Qed.

Lemma decodeAudioData_edges_witness :
  decodeAudioData [x07] outputAudioContext (@lit xnum exact 24000) (lit 1)
  = None
  /\ decodeAudioData [] outputAudioContext (@lit xnum exact 24000) (lit 1)
     = Some (silence (XFin 24000) 1).
Proof.
  destruct (@decodeAudioData_edges [x07]) as (H1 & _); [reflexivity|].
  destruct (@decodeAudioData_edges []) as (_ & H2); [reflexivity|].
  split; [now apply H1 | now apply H2].
Defined.

(** From capture to playback: a buffer of finite samples captured at
    16000 Hz, sent through [createBlob], [decode] and
    [decodeAudioData], comes back as one frame per sample, each the
    quantized sample divided by 32768, and within [1/32768] of the
    sample when this lies in [[-1, 1]].  (Exact arithmetic.) *)
Theorem capture_to_playback (qs : list Q) :
  1 <= Z.of_nat (List.length qs) < 2 ^ 32 ->
  exists blob bytes buffer ds,
    createBlob (map XFin qs) (lit 16000) = Some blob
    /\ decode (data blob) = Some bytes
    /\ decodeAudioData bytes outputAudioContext (lit 24000) (lit 1)
       = Some buffer
    /\ channels buffer = [map XFin ds]
    /\ ds = map (fun s => inject_Z (quantized (XFin s)) / 32768)%Q qs
    /\ forall i, (i < List.length qs)%nat ->
         (-1 <= nth i qs 0 <= 1)%Q ->
         (Qabs (nth i ds 0 - nth i qs 0) <= 1 # 32768)%Q.
Proof.
  intros Hn.
  set (ints := quantize (map XFin qs)).
  set (bytes := flat_map int16_bytes ints).
  assert (Hi : ints = map quantized (map XFin qs))
    by apply quantize_map_quantized.
  assert (Hl : List.length bytes = (2 * List.length qs)%nat).
  { unfold bytes. rewrite int16_bytes_length. unfold ints.
    destruct (quantize_range exact (map XFin qs)) as [-> _].
    now rewrite length_map. }
  assert (He : int16_elements bytes = ints).
  { apply int16_elements_bytes, quantize_range. }
  destruct (@decodeAudioData_mono_frames bytes)
    as (buffer & samples & E & _ & C & S & _ & _).
  { rewrite Hl. lia. }
  { rewrite Hl. Z.div_mod_to_equations. lia. }
  exists {| data := encode bytes; mimeType := str "audio/pcm;rate=16000" |},
    bytes, buffer,
    (map (fun s => inject_Z (quantized (XFin s)) / 32768)%Q qs).
  split; [reflexivity|]. cbn [data]. split; [apply decode_encode|].
  split; [exact E|]. split.
  { rewrite C, S, He, Hi, !map_map. reflexivity. }
  split; [reflexivity|].
  intros i Hlt Hs.
  rewrite (nth_indep _ 0%Q ((fun s => inject_Z (quantized (XFin s)) / 32768)%Q 0%Q))
    by now rewrite length_map.
  rewrite (map_nth (fun s => (inject_Z (quantized (XFin s)) / 32768)%Q)).
  set (s := nth i qs 0%Q) in *.
  cbn [quantized].
  assert (Hc : (-1 <= inject_Z (clamp16 (Qtrunc (s * 32768))) - s * 32768 <= 1)%Q).
  { apply clamp_trunc_error. lra. }
  unfold Qdiv. change (/ 32768)%Q with (1 # 32768)%Q.
  apply Qabs_Qle_condition. split; lra.
Qed.

Lemma capture_to_playback_witness :
  exists blob bytes buffer ds,
    createBlob (map XFin [1 # 3; -1]%Q) (lit 16000) = Some blob
    /\ decode (data blob) = Some bytes
    /\ decodeAudioData bytes outputAudioContext (lit 24000) (lit 1)
       = Some buffer
    /\ channels buffer = [map XFin ds]
    /\ (Qabs (nth 0 ds 0 - (1 # 3)) <= 1 # 32768)%Q.
Proof.
  destruct (@capture_to_playback [1 # 3; -1]%Q)
    as (blob & bytes & buffer & ds & B & D & A & C & _ & H);
    [split; [discriminate | reflexivity]|].
  exists blob, bytes, buffer, ds. repeat split; try assumption.
  apply (H 0%nat); [cbn; lia | split; discriminate].
Defined.

(** ** The scheduler's invariants *)

Section SchedulerFacts.

Context {num : Type} {N : Number num}.
Local Open Scope js_scope.

Lemma Set_add_intro x (s : list nat) : In x (Set_add x s).
Proof.
  unfold Set_add. destruct (existsb (Nat.eqb x) s) eqn:E.
  - apply existsb_exists in E. destruct E as (y & Hy & E).
    apply Nat.eqb_eq in E. now subst.
  - apply in_app_iff. right. now left.
Qed.

Lemma Set_add_keeps x y (s : list nat) : In y s -> In y (Set_add x s).
Proof.
  unfold Set_add. destruct (existsb (Nat.eqb x) s); [auto|].
  intros H. apply in_app_iff. now left.
Qed.

Lemma Set_add_NoDup x (s : list nat) : NoDup s -> NoDup (Set_add x s).
Proof.
  intros H. unfold Set_add. destruct (existsb (Nat.eqb x) s) eqn:E; [exact H|].
  assert (Hx : ~ In x s).
  { intros Hin. assert (existsb (Nat.eqb x) s = true); [|congruence].
    apply existsb_exists. exists x. split; [exact Hin | apply Nat.eqb_refl]. }
  clear E. induction H as [|y s Hy Hs IH]; cbn.
  - constructor; [intros [] | constructor].
  - constructor.
    + rewrite in_app_iff. cbn. intros [C|[C|[]]]; [auto|].
      apply Hx. now left.
    + apply IH. intros C. apply Hx. now right.
Qed.

Lemma stop_sources_outside l : forall (st : @State num) y,
  ~ In y l ->
  nth_error (nodes (state_of (stop_sources l st))) y = nth_error (nodes st) y.
Proof.
  induction l as [|x l IH]; intros st y Hy; [reflexivity|].
  cbn [stop_sources].
  destruct (on_node_cases x node_stop st) as [E|(n & n' & En & Fn & E)];
    rewrite E; cbn [bind state_of]; [reflexivity|].
  rewrite IH by (intros C; apply Hy; now right).
  cbn [nodes set_sources set_nodes].
  apply nth_error_store_neq. intros ->. apply Hy. now left.
Qed.

Lemma play_live_in_sources (b : @AudioBuffer num) (st : @State num) :
  live_in_sources st -> live_in_sources (state_of (play b st)).
Proof.
  intros H. rewrite play_eq. cbn [state_of].
  intros y n Hn Hp.
  cbn [nodes sources set_sources set_nextStartTime set_nodes] in *.
  destruct (Nat.lt_ge_cases y (List.length (nodes st))) as [Hlt|Hge].
  - rewrite nth_error_app1 in Hn by exact Hlt.
    apply Set_add_keeps. now apply (H y n).
  - assert (y = List.length (nodes st)) as ->.
    { assert (y < List.length (nodes st ++ [scheduled_node b (nextStartTime st)]))%nat
        by (apply nth_error_Some; congruence).
      rewrite length_app in H0. cbn in H0. lia. }
    apply Set_add_intro.
Qed.

Lemma play_NoDup (b : @AudioBuffer num) (st : @State num) :
  NoDup (sources st) -> NoDup (sources (state_of (play b st))).
Proof.
  intros H. rewrite play_eq. cbn. now apply Set_add_NoDup.
Qed.

(** The three facts kept by every step. *)
Definition scheduler_invariant (st : @State num) : Prop :=
  sources_live st /\ live_in_sources st /\ NoDup (sources st).

Lemma interrupted_invariant (st : @State num) :
  scheduler_invariant st ->
  exists st',
    onmessage_interrupted st = Normal st'
    /\ sources st' = []
    /\ nextStartTime st' = lit 0
    /\ List.length (nodes st') = List.length (nodes st)
    /\ (forall y n, nth_error (nodes st') y = Some n ->
                    node_phase n <> Scheduled /\ node_phase n <> Active)
    /\ scheduler_invariant st'.
Proof.
  intros (Hl & Hc & Hd).
  destruct (interrupted_spec Hl) as (st' & E & Hs & Ht & Hk & Hx).
  exists st'. split; [exact E|]. split; [exact Hs|]. split; [exact Ht|].
  assert (Hn : forall y, ~ In y (sources st) ->
                 nth_error (nodes st') y = nth_error (nodes st) y).
  { intros y Hy. unfold onmessage_interrupted in E.
    pose proof (@stop_sources_outside (sources st) st y Hy) as O.
    destruct (stop_sources (sources st) st) as [s1|s1]; [|discriminate E].
    cbn in E. injection E as <-. exact O. }
  assert (Hdead : forall y n, nth_error (nodes st') y = Some n ->
                    node_phase n <> Scheduled /\ node_phase n <> Active).
  { intros y n Hy.
    destruct (in_dec Nat.eq_dec y (sources st)) as [Hin|Hout].
    - pose proof (Hx y Hin) as P. unfold phase_of in P. rewrite Hy in P.
      cbn in P. injection P as P. rewrite P. split; discriminate.
    - rewrite (Hn y Hout) in Hy.
      split; intros C; apply Hout; apply (Hc y n Hy); auto. }
  split.
  { unfold onmessage_interrupted in E.
    assert (L : forall l (s : @State num),
               List.length (nodes (state_of (stop_sources l s)))
               = List.length (nodes s)).
    { induction l as [|x l IH]; intros s; [reflexivity|].
      cbn [stop_sources].
      destruct (on_node_cases x node_stop s) as [F|(n & n' & _ & _ & F)];
        rewrite F; cbn [bind state_of]; [reflexivity|].
      rewrite IH. cbn. apply store_length. }
    specialize (L (sources st) st).
    destruct (stop_sources (sources st) st) as [s1|s1]; [|discriminate E].
    cbn in E. injection E as <-. exact L. }
  split; [exact Hdead|].
  split; [|split].
  - intros y Hy. rewrite Hs in Hy. destruct Hy.
  - intros y n Hy Hp. exfalso. destruct (Hdead y n Hy) as [A B].
    destruct Hp; auto.
  - rewrite Hs. constructor.
Qed.

Lemma onmessage_invariant now m (st : @State num) :
  scheduler_invariant st -> scheduler_invariant (state_of (onmessage now m st)).
Proof.
  intros Hi. unfold onmessage.
  assert (H1 : scheduler_invariant
                 (state_of (match inlineData m with
                            | Some data => onmessage_audio now data st
                            | None => Normal st
                            end))).
  { destruct (inlineData m) as [data|]; [|exact Hi].
    unfold onmessage_audio.
    set (st1 := set_nextStartTime _ st).
    assert (I1 : scheduler_invariant st1) by exact Hi.
    destruct (decode data) as [bytes|]; [|exact I1].
    destruct (decodeAudioData _ _ _ _) as [b|]; [|exact I1].
    destruct I1 as (A & B & C).
    split; [now apply play_live|].
    split; [now apply play_live_in_sources | now apply play_NoDup]. }
  destruct (match inlineData m with
            | Some data => onmessage_audio now data st
            | None => Normal st
            end) as [st1|st1]; cbn [bind state_of] in *; [|exact H1].
  destruct (interrupted m); [|exact H1].
  destruct (interrupted_invariant H1) as (st2 & E & _ & _ & _ & _ & I2).
  rewrite E. exact I2.
Qed.

Lemma tick_invariant now (st : @State num) :
  scheduler_invariant st -> scheduler_invariant (tick now st).
Proof.
  intros (Hl & Hc & Hd). split; [now apply tick_live|]. split.
  - intros y n Hy Hp. unfold tick in *.
    cbn [nodes sources set_sources set_nodes] in *.
    rewrite nth_error_map in Hy.
    destruct (nth_error (nodes st) y) as [n0|] eqn:E0; [|discriminate].
    cbn in Hy. injection Hy as <-.
    apply filter_In. split.
    + apply (Hc y n0 E0).
      pose proof (node_advance_phase now n0) as A.
      destruct (node_phase n0); auto; destruct Hp; congruence.
    + rewrite nth_error_map, E0. cbn. unfold node_ended.
      destruct Hp as [-> | ->]; now rewrite andb_false_r.
  - unfold tick. cbn [sources set_sources]. now apply NoDup_filter.
Qed.

Lemma step_invariant (st : @State num) e :
  scheduler_invariant st -> scheduler_invariant (step st e).
Proof.
  intros Hi. destruct (quiet e) eqn:Q.
  - destruct (scheduler_of_eq (quiet_frame st e Q)) as (_ & Hs & Hn).
    destruct Hi as (A & B & C). unfold scheduler_invariant, sources_live,
      live, live_in_sources. rewrite Hs, Hn. auto.
  - destruct e; try discriminate Q; cbn [step].
    + now apply onmessage_invariant.
    + now apply tick_invariant.
Qed.

Lemma reachable_invariant (st : @State num) :
  reachable st -> scheduler_invariant st.
Proof.
  induction 1 as [t|st e _ IH]; [|now apply step_invariant].
  split; [intros y []|]. split; [|constructor].
  intros y n Hy. destruct y; discriminate Hy.
Qed.

End SchedulerFacts.

(** In every state the component reaches, [sources] is exactly the set
    of the source nodes that are scheduled or playing: each member is
    such a node (with its ['ended'] listener), each such node is a
    member, and no member is listed twice.  (Either arithmetic.) *)
Theorem sources_are_the_live_units :
  forall (num : Type) (N : Number num) (st : @State num),
    reachable st ->
    sources_live st /\ live_in_sources st /\ NoDup (sources st).
Proof. intros num N st H. exact (reachable_invariant H). Qed.

Lemma sources_are_the_live_units_witness :
  reachable one_unit_state
  /\ sources_live one_unit_state
  /\ live_in_sources one_unit_state
  /\ NoDup (sources one_unit_state).
Proof.
  assert (H : reachable one_unit_state) by apply reach_step, reach_init.
  split; [exact H|]. exact (@sources_are_the_live_units _ _ _ H).
Defined.

(** After an interruption nothing is left to play: in every state the
    component reaches, the interruption branch returns normally and
    leaves no source node at all scheduled or playing, [sources] empty
    and [nextStartTime] at 0.  (Either arithmetic.) *)
Theorem interruption_silences_every_node :
  forall (num : Type) (N : Number num) (st : @State num),
    reachable st ->
    exists st',
      onmessage_interrupted st = Normal st'
      /\ sources st' = []
      /\ nextStartTime st' = lit 0
      /\ forall source n,
           nth_error (nodes st') source = Some n ->
           node_phase n <> Scheduled /\ node_phase n <> Active.
Proof.
  intros num N st H.
  destruct (interrupted_invariant (reachable_invariant H))
    as (st' & E & Hs & Ht & _ & Hd & _).
  exists st'. auto.
Qed.

Lemma interruption_silences_every_node_witness :
  reachable one_unit_state
  /\ exists st',
      onmessage_interrupted one_unit_state = Normal st'
      /\ sources st' = []
      /\ phase_of 0 st' = Some Cancelled.
Proof.
  assert (H : reachable one_unit_state) by apply reach_step, reach_init.
  split; [exact H|].
  destruct (@interruption_silences_every_node _ _ _ H)
    as (st' & E & Hs & _ & _).
  exists st'. split; [exact E|]. split; [exact Hs|].
  vm_compute in E. injection E as <-. reflexivity.
Defined.

(** ** Messages *)

(** A message whose audio cannot be decoded makes the handler throw
    after it has raised [nextStartTime] to the clock: no unit is
    created, [sources] and the source nodes stay as they are, and the
    interruption the same message may signal is not carried out.
    (Either arithmetic.) *)
Theorem undecodable_audio_skips_interruption :
  forall (num : Type) (N : Number num) (st : @State num) (now : num)
         (payload : jsstring) (flag : bool),
    decode payload = None
    \/ (exists bytes, decode payload = Some bytes
                      /\ decodeAudioData bytes outputAudioContext
                           (lit 24000) (lit 1) = None) ->
    onmessage now {| inlineData := Some payload; interrupted := flag |} st
    = Throw (set_nextStartTime (Math_max (nextStartTime st) now) st).
Proof.
  intros num N st now payload flag H.
  unfold onmessage, onmessage_audio. cbn [inlineData interrupted].
  destruct H as [-> | (bytes & -> & ->)]; reflexivity.
Qed.

Lemma undecodable_audio_skips_interruption_witness :
  decode (str "!!!!") = None
  /\ sources
       (step one_unit_state
          (EvMessage 1%float {| inlineData := Some (str "!!!!");
                                interrupted := true |}))
     = [0%nat]
  /\ phase_of 0
       (step one_unit_state
          (EvMessage 1%float {| inlineData := Some (str "!!!!");
                                interrupted := true |}))
     = Some Scheduled.
Proof.
  assert (H : decode (str "!!!!") = None) by reflexivity.
  split; [exact H|]. cbn [step].
  rewrite (@undecodable_audio_skips_interruption float binary64
             one_unit_state 1%float (str "!!!!") true (or_introl H)).
  split; reflexivity.
Defined.

(** A message that carries audio and signals an interruption: in every
    state the component reaches, the unit made for its audio is
    cancelled with the others before it can play, [sources] ends empty
    and [nextStartTime] at 0.  (Either arithmetic.) *)
Theorem audio_of_an_interrupting_message_is_cancelled :
  forall (num : Type) (N : Number num) (st : @State num) (now : num)
         (payload : jsstring) (bytes : Uint8Array) (b : AudioBuffer),
    reachable st ->
    decode payload = Some bytes ->
    decodeAudioData bytes outputAudioContext (lit 24000) (lit 1) = Some b ->
    exists st',
      onmessage now {| inlineData := Some payload; interrupted := true |} st
      = Normal st'
      /\ sources st' = []
      /\ nextStartTime st' = lit 0
      /\ List.length (nodes st') = S (List.length (nodes st))
      /\ phase_of (List.length (nodes st)) st' = Some Cancelled.
Proof.
  intros num N st now payload bytes b Hr Hd Hb.
  pose proof (reachable_invariant Hr) as Hi.
  unfold onmessage, onmessage_audio. cbn [inlineData interrupted].
  rewrite Hd, Hb.
  set (st0 := set_nextStartTime _ st).
  assert (I0 : scheduler_invariant st0) by exact Hi.
  pose proof (play_eq b st0) as Hp.
  assert (I1 : scheduler_invariant (state_of (play b st0))).
  { destruct I0 as (A & B & C). split; [now apply play_live|].
    split; [now apply play_live_in_sources | now apply play_NoDup]. }
  rewrite Hp in *. cbn [bind state_of] in *.
  set (st1 := set_sources _ _) in *.
  destruct (interrupted_invariant I1) as (st' & E & Hs & Ht & Hl & Hdead & _).
  destruct I1 as (L1 & _ & _).
  destruct (interrupted_spec L1) as (st'' & E' & _ & _ & _ & Hx).
  rewrite E in E'. injection E' as <-.
  rewrite E. exists st'. split; [reflexivity|]. split; [exact Hs|].
  split; [exact Ht|]. split.
  - rewrite Hl. unfold st1. cbn. rewrite length_app. cbn. lia.
  - apply Hx. unfold st1. cbn [sources set_sources].
    apply Set_add_intro.
Qed.

Lemma audio_of_an_interrupting_message_is_cancelled_witness :
  exists st',
    onmessage 1%float {| inlineData := Some (str "AAAA");
                         interrupted := true |} one_unit_state
    = Normal st'
    /\ sources st' = []
    /\ phase_of 1 st' = Some Cancelled.
Proof.
  assert (H : reachable one_unit_state) by apply reach_step, reach_init.
  destruct (decode (str "AAAA")) as [bytes|] eqn:Hd; [|discriminate Hd].
  destruct (decodeAudioData bytes outputAudioContext
              (@lit float binary64 24000) (lit 1)) as [b|] eqn:Hb.
  - destruct (@audio_of_an_interrupting_message_is_cancelled float binary64
                one_unit_state 1%float (str "AAAA") bytes b H Hd Hb)
      as (st' & E & Hs & _ & _ & Hp).
    exists st'. split; [exact E|]. split; [exact Hs | exact Hp].
  - vm_compute in Hd. injection Hd as <-. vm_compute in Hb. discriminate Hb.
Defined.

(** Recording controls, [reset], its timer and the session's own
    events leave the scheduler alone: [nextStartTime], [sources] and
    the source nodes change only by a message or by the output clock.
    (Either arithmetic.) *)
Theorem only_messages_and_clock_touch_the_scheduler :
  forall (num : Type) (N : Number num) (st : @State num) (e : Event),
    (forall now m, e <> EvMessage now m) ->
    (forall now, e <> EvTick now) ->
    nextStartTime (step st e) = nextStartTime st
    /\ sources (step st e) = sources st
    /\ nodes (step st e) = nodes st.
Proof.
  intros num N st e Hm Ht. apply scheduler_of_eq, quiet_frame.
  destruct e; try reflexivity.
  - exfalso. now apply (Hm currentTime message).
  - exfalso. now apply (Ht now).
Qed.

Lemma only_messages_and_clock_touch_the_scheduler_witness :
  sources (step one_unit_state EvReset) = sources one_unit_state
  /\ nodes (step one_unit_state (EvStart Granted)) = nodes one_unit_state.
Proof.
  split.
  - apply (@only_messages_and_clock_touch_the_scheduler float binary64
             one_unit_state EvReset); intros; discriminate.
  - apply (@only_messages_and_clock_touch_the_scheduler float binary64
             one_unit_state (EvStart Granted)); intros; discriminate.
Defined.

(** ** Buffers and time in exact arithmetic *)

Lemma exact_le_iff p q : (XFin p <= XFin q)%js = true <-> (p <= q)%Q.
Proof.
  rewrite exact_le_fin. split.
  - intros H. apply orb_true_iff in H. destruct H as [H|H].
    + apply negb_true_iff, Qle_bool_false in H. lra.
    + apply Qeq_bool_iff in H. lra.
  - intros H. destruct (Qle_bool q p) eqn:B; [|reflexivity].
    apply Qle_bool_iff in B. cbn [negb orb]. apply Qeq_bool_iff. lra.
Qed.

Lemma exact_lt_iff p q : (XFin p < XFin q)%js = true <-> (p < q)%Q.
Proof.
  rewrite exact_lt_fin, negb_true_iff. apply Qle_bool_false.
Qed.

Lemma createBuffer_positive (ctx : @AudioContext xnum) (c n r : xnum) b :
  createBuffer ctx c n r = Some b ->
  (1 <= buffer_length b)%nat
  /\ exists q, buffer_sampleRate b = XFin q /\ (0 < q)%Q.
Proof.
  unfold createBuffer. cbn [Math_fround exact].
  destruct r as [| s | q]; cbn [truncate exact Exact.trunc]; try discriminate.
  destruct (ToUint32 c =? 0); [discriminate|].
  destruct (Z.eqb_spec (ToUint32 n) 0) as [|Hn]; [discriminate|].
  destruct (lit 0 < XFin q)%js eqn:L; [|discriminate].
  cbn [orb negb]. intros H. injection H as <-. cbn. split.
  - assert (0 <= ToUint32 n).
    { unfold ToUint32. destruct (truncate n); [|lia].
      apply Z.mod_pos_bound. reflexivity. }
    lia.
  - exists q. split; [reflexivity|].
    change (lit 0) with (XFin (inject_Z 0)) in L.
    now apply exact_lt_iff in L.
Qed.

Lemma channel_loop_keeps_shape (k : nat)
    (f : nat -> @AudioBuffer xnum -> list xnum -> list (list xnum)) b0 b :
  for_n k
    (fun c buffer =>
       match buffer with
       | None => None
       | Some buffer =>
           match nth_error (channels buffer) c with
           | None => None
           | Some channelData =>
               Some {| buffer_sampleRate := buffer_sampleRate buffer;
                       buffer_length := buffer_length buffer;
                       channels := f c buffer channelData |}
           end
       end) (Some b0) = Some b ->
  buffer_sampleRate b = buffer_sampleRate b0
  /\ buffer_length b = buffer_length b0.
Proof.
  revert b. induction k as [|k IH]; intros b H.
  - injection H as <-. auto.
  - rewrite for_n_S in H.
    destruct (for_n k _ (Some b0)) as [b1|]; [|discriminate].
    destruct (IH b1 eq_refl) as [R L].
    destruct (nth_error (channels b1) k); [|discriminate].
    injection H as <-. cbn. auto.
Qed.

Lemma decodeAudioData_positive
    (data : Uint8Array) (ctx : @AudioContext xnum) (sampleRate numChannels : xnum)
    (buffer : AudioBuffer) :
  decodeAudioData data ctx sampleRate numChannels = Some buffer ->
  (1 <= buffer_length buffer)%nat
  /\ exists d, duration buffer = XFin d /\ (0 < d)%Q.
Proof.
  intros H.
  assert (P : (1 <= buffer_length buffer)%nat
              /\ exists q, buffer_sampleRate buffer = XFin q /\ (0 < q)%Q).
  { unfold decodeAudioData in H. cbv zeta in H.
    destruct (_ || _).
    - now apply createBuffer_positive in H.
    - destruct (createBuffer ctx numChannels _ sampleRate) as [b0|] eqn:E;
        [|discriminate].
      destruct (ToIndex _) as [n|]; [|discriminate].
      apply channel_loop_keeps_shape in H. destruct H as [-> ->].
      now apply createBuffer_positive in E. }
  destruct P as (L & q & Eq & Hq). split; [exact L|].
  unfold duration, idx. rewrite Eq.
  change (lit ?z) with (XFin (inject_Z z)).
  rewrite exact_div_fin by lra.
  eexists. split; [reflexivity|].
  apply Qlt_shift_div_l; [exact Hq|].
  rewrite Qmult_0_l, <- (Zlt_Qlt 0). lia.
Qed.

(** Whatever bytes, context, rate and channel count it is given,
    [decodeAudioData] never returns an empty buffer: what it returns
    has at least one frame, a positive finite rate and so a positive
    duration.  (Exact arithmetic.) *)
Theorem decodeAudioData_never_empty
    (data : Uint8Array) (ctx : @AudioContext xnum) (sampleRate numChannels : xnum)
    (buffer : AudioBuffer) :
  decodeAudioData data ctx sampleRate numChannels = Some buffer ->
  (1 <= buffer_length buffer)%nat
  /\ exists d, duration buffer = XFin d /\ (0 < d)%Q.
Proof.
  intros H. exact (@decodeAudioData_positive _ _ _ _ _ H).
Qed.

Lemma decodeAudioData_never_empty_witness :
  exists buffer d,
    decodeAudioData [] outputAudioContext (@lit xnum exact 24000) (lit 1)
    = Some buffer
    /\ duration buffer = XFin d /\ (0 < d)%Q.
Proof.
  assert (E : decodeAudioData [] outputAudioContext
                (@lit xnum exact 24000) (lit 1)
              = Some (silence (XFin 24000) 1)) by reflexivity.
  destruct (decodeAudioData_never_empty _ _ _ _ E) as (_ & d & Ed & Hd).
  exists (silence (XFin 24000) 1), d. split; [reflexivity|].
  split; [exact Ed | exact Hd].
Defined.

(** No unit is started in the past nor before the previous one ends:
    with a finite [nextStartTime] and a finite clock reading, the start
    time given to a decoded buffer is one of the two and not below
    either.  (Exact arithmetic.) *)
Theorem start_time_not_in_the_past
    (st : @State xnum) (b : AudioBuffer) (n c : Q) :
  nextStartTime st = XFin n ->
  exists st' t,
    onChunkDecoded (XFin c) b st = Normal st'
    /\ nth_error (nodes st') (List.length (nodes st))
       = Some (scheduled_node b (XFin t))
    /\ (c <= t)%Q /\ (n <= t)%Q /\ (t = c \/ t = n).
Proof.
  intros En. rewrite onChunkDecoded_eq. cbv zeta. rewrite En.
  assert (M : exists t, Math_max (XFin n) (XFin c) = XFin t
                        /\ (c <= t)%Q /\ (n <= t)%Q /\ (t = c \/ t = n)).
  { cbn. unfold Exact.max, Exact.lt. cbn [Exact.is_nan orb].
    destruct (Qle_bool c n) eqn:B; cbn [negb].
    - apply Qle_bool_iff in B. exists n. repeat split; auto; lra.
    - apply Qle_bool_false in B. exists c. repeat split; auto; lra. }
  destruct M as (t & -> & H1 & H2 & H3).
  eexists _, t. split; [reflexivity|].
  cbn [nodes set_sources set_nextStartTime set_nodes].
  split; [apply nth_error_last|]. auto.
Qed.

Lemma start_time_not_in_the_past_witness :
  exists st' t,
    onChunkDecoded (XFin 10) (silence (XFin 24000) 1) (constructed (XFin 2))
    = Normal st'
    /\ nth_error (nodes st') 0
       = Some (scheduled_node (silence (XFin 24000) 1) (XFin t))
    /\ (10 <= t)%Q.
Proof.
  destruct (@start_time_not_in_the_past (constructed (XFin 2))
              (silence (XFin 24000) 1) 2 10 eq_refl)
    as (st' & t & E & Hn & Hc & _ & _).
  exists st', t. split; [exact E|]. split; [exact Hn | exact Hc].
Defined.

(** Without an interruption [nextStartTime] never moves back: after
    the audio branch of the handler, whether the payload decodes or
    not, it is at least what it was and at least the clock reading.
    (Exact arithmetic.) *)
Theorem nextStartTime_never_moves_back
    (st : @State xnum) (payload : jsstring) (n c : Q) :
  nextStartTime st = XFin n ->
  exists n',
    nextStartTime (state_of (onmessage_audio (XFin c) payload st)) = XFin n'
    /\ (n <= n')%Q /\ (c <= n')%Q.
Proof.
  intros En.
  assert (M : exists t, Math_max (XFin n) (XFin c) = XFin t
                        /\ (c <= t)%Q /\ (n <= t)%Q).
  { cbn. unfold Exact.max, Exact.lt. cbn [Exact.is_nan orb].
    destruct (Qle_bool c n) eqn:B; cbn [negb].
    - apply Qle_bool_iff in B. exists n. repeat split; lra.
    - apply Qle_bool_false in B. exists c. repeat split; lra. }
  destruct M as (t & Et & H1 & H2).
  unfold onmessage_audio. rewrite En, Et.
  destruct (decode payload) as [bytes|]; [|exists t; cbn; auto].
  destruct (decodeAudioData bytes _ _ _) as [b|] eqn:Eb;
    [|exists t; cbn; auto].
  destruct (decodeAudioData_positive _ _ _ _ Eb) as (_ & d & Ed & Hd).
  rewrite play_eq. cbn [state_of nextStartTime set_sources set_nextStartTime].
  rewrite Ed. exists (t + d)%Q. split; [reflexivity|]. split; lra.
Qed.

Lemma nextStartTime_never_moves_back_witness :
  exists n',
    nextStartTime
      (state_of (onmessage_audio (XFin 1) (str "AAAA") (constructed (XFin 2))))
    = XFin n'
    /\ (2 <= n')%Q.
Proof.
  destruct (@nextStartTime_never_moves_back (constructed (XFin 2))
              (str "AAAA") 2 1 eq_refl) as (n' & E & H & _).
  exists n'. split; [exact E | exact H].
Defined.

(** ** Recording and capture *)

Section RecordingFacts.

Context {num : Type} {N : Number num}.

(** The fields the capture path owns. *)
Definition capture_of (st : @State num) : bool * bool * bool * bool :=
  (isRecording st, mediaStream st, sourceNode st, scriptProcessorNode st).

Lemma on_node_capture source f (st : @State num) :
  capture_of (state_of (on_node source f st)) = capture_of st.
Proof.
  unfold on_node. destruct (nth_error _ _) as [n|]; [|reflexivity].
  destruct (f n); reflexivity.
Qed.

Lemma stop_sources_capture l : forall st : @State num,
  capture_of (state_of (stop_sources l st)) = capture_of st.
Proof.
  induction l as [|s l IH]; intros st; [reflexivity|].
  cbn [stop_sources]. pose proof (on_node_capture s node_stop st) as H.
  destruct (on_node s node_stop st) as [st1|st1]; cbn [bind state_of] in *.
  - rewrite IH. exact H.
  - exact H.
Qed.

Lemma onmessage_capture now message (st : @State num) :
  capture_of (state_of (onmessage now message st)) = capture_of st.
Proof.
  assert (A : forall payload,
             capture_of (state_of (onmessage_audio now payload st))
             = capture_of st).
  { intros payload. unfold onmessage_audio.
    destruct (decode payload); [|reflexivity].
    destruct (decodeAudioData _ _ _ _); [|reflexivity].
    rewrite play_eq. reflexivity. }
  assert (I : forall st1 : @State num,
             capture_of (state_of (onmessage_interrupted st1))
             = capture_of st1).
  { intros st1. unfold onmessage_interrupted.
    pose proof (stop_sources_capture (sources st1) st1) as H.
    destruct (stop_sources (sources st1) st1); exact H. }
  unfold onmessage.
  destruct (inlineData message) as [payload|].
  - specialize (A payload).
    destruct (onmessage_audio now payload st) as [st1|st1];
      cbn [bind state_of] in *; [|exact A].
    destruct (interrupted message); [|exact A].
    rewrite I. exact A.
  - cbn [bind]. destruct (interrupted message); [apply I | reflexivity].
Qed.

Lemma stopRecording_eq (st : @State num) :
  stopRecording st
  = updateStatus "Recording stopped. Click Start to begin again."
      (set_capture false false false
         (set_isRecording false (updateStatus "Stopping recording..." st))).
Proof.
  unfold stopRecording. cbn [negb]. rewrite andb_false_r. reflexivity.
Qed.

(** The capture nodes exist exactly when the component is recording. *)
Definition capturing (st : @State num) : Prop :=
  mediaStream st = isRecording st
  /\ sourceNode st = isRecording st
  /\ scriptProcessorNode st = isRecording st.

Lemma step_capturing (st : @State num) e :
  capturing st -> capturing (step st e).
Proof.
  intros (H1 & H2 & H3). unfold capturing.
  destruct e as [now message | now | mic | | | | | message]; cbn [step].
  - pose proof (onmessage_capture now message st) as H.
    unfold capture_of in H. injection H as -> -> -> ->. auto.
  - auto.
  - unfold startRecording.
    destruct (isRecording st) eqn:E; [repeat split; congruence|].
    destruct mic; [cbn; auto|]. rewrite stopRecording_eq. cbn. auto.
  - rewrite stopRecording_eq. cbn. auto.
  - unfold reset. rewrite stopRecording_eq.
    destruct (session _); cbn; auto.
  - unfold timeout. destruct (timers st) as [|[] rest]; cbn; auto.
  - cbn. auto.
  - cbn. auto.
Qed.

Lemma reachable_capturing (st : @State num) :
  reachable st -> capturing st.
Proof.
  induction 1 as [currentTime | st e _ IH].
  - repeat split.
  - now apply step_capturing.
Qed.

Lemma step_not_recording (st : @State num) e :
  isRecording st = false -> grants e = false ->
  isRecording (step st e) = false.
Proof.
  intros H G.
  destruct e as [now message | now | mic | | | | | message]; cbn [step].
  - pose proof (onmessage_capture now message st) as C.
    unfold capture_of in C. injection C as -> _ _ _. exact H.
  - exact H.
  - destruct mic; [discriminate G|].
    unfold startRecording. rewrite H, stopRecording_eq. reflexivity.
  - rewrite stopRecording_eq. reflexivity.
  - unfold reset. rewrite stopRecording_eq. destruct (session _); reflexivity.
  - unfold timeout. destruct (timers st) as [|[] rest]; exact H.
  - exact H.
  - exact H.
Qed.

Lemma run_not_recording trace : forall st : @State num,
  isRecording st = false ->
  forallb (fun e => negb (grants e)) trace = true ->
  isRecording (run st trace) = false.
Proof.
  induction trace as [|e trace IH]; intros st H G; [exact H|].
  cbn [forallb] in G. apply andb_true_iff in G. destruct G as [G1 G2].
  apply negb_true_iff in G1. cbn [run fold_left].
  apply IH; [now apply step_not_recording | exact G2].
Qed.

End RecordingFacts.

(** Between two events the microphone stream, the source node and the
    script processor exist exactly when the component is recording, so
    the stop button is enabled exactly when there is a stream to stop.
    ([startRecording] taken as one step.) *)
Theorem microphone_open_iff_recording
    (num : Type) (N : Number num) (st : @State num) :
  reachable st ->
  mediaStream st = isRecording st
  /\ sourceNode st = isRecording st
  /\ scriptProcessorNode st = isRecording st
  /\ stopButton_disabled (render st) = negb (mediaStream st).
Proof.
  intros H. destruct (reachable_capturing H) as (H1 & H2 & H3).
  repeat split; try assumption. cbn. now rewrite H1.
Qed.

Lemma microphone_open_iff_recording_witness :
  mediaStream (run (constructed 0%float)
                 [EvConnected; EvStart Granted]) = true
  /\ mediaStream (run (constructed 0%float)
                    [EvConnected; EvStart Granted; EvReset]) = false.
Proof.
  split.
  - destruct (@microphone_open_iff_recording float binary64
                (run (constructed 0%float) [EvConnected; EvStart Granted]))
      as (H & _); [apply reachable_run, reach_init | rewrite H; reflexivity].
  - destruct (@microphone_open_iff_recording float binary64
                (run (constructed 0%float)
                   [EvConnected; EvStart Granted; EvReset]))
      as (H & _); [apply reachable_run, reach_init | rewrite H; reflexivity].
Defined.

(** [stopRecording] never takes its early return: from every state it
    ends not recording, with no stream, source node or processor, with
    the status ["Recording stopped. Click Start to begin again."] and
    no error, and a second call changes nothing more. *)
Theorem stopRecording_always_cleans_up
    (num : Type) (N : Number num) (st : @State num) :
  isRecording (stopRecording st) = false
  /\ mediaStream (stopRecording st) = false
  /\ sourceNode (stopRecording st) = false
  /\ scriptProcessorNode (stopRecording st) = false
  /\ status (stopRecording st)
     = "Recording stopped. Click Start to begin again."%string
  /\ error (stopRecording st) = ""%string
  /\ stopRecording (stopRecording st) = stopRecording st.
Proof.
  rewrite !stopRecording_eq. repeat split.
Qed.

(** The error of a failed start is never shown: [startRecording] sets
    it in its [catch] and then calls [stopRecording], whose status
    update clears it; what is rendered is the status of a stopped
    recording. *)
Theorem failed_start_hides_its_error
    (num : Type) (N : Number num) (st : @State num) (message : string) :
  isRecording st = false ->
  error (startRecording (Denied message) st) = ""%string
  /\ status_text (render (startRecording (Denied message) st))
     = "Recording stopped. Click Start to begin again."%string
  /\ isRecording (startRecording (Denied message) st) = false.
Proof.
  intros H. unfold startRecording. rewrite H, stopRecording_eq.
  repeat split.
Qed.

Lemma failed_start_hides_its_error_witness :
  status_text
    (render (startRecording (Denied "Permission denied")
               (constructed 0%float)))
  = "Recording stopped. Click Start to begin again."%string.
Proof.
  destruct (@failed_start_hides_its_error float binary64
              (constructed 0%float) "Permission denied" eq_refl)
    as (_ & H & _).
  exact H.
Defined.

(** Once recording has stopped the capture callback sends nothing,
    whatever happens next, until a start is granted again. *)
Theorem stopped_capture_sends_nothing
    (num : Type) (N : Number num) (st : @State num)
    (trace : list Event) (pcmData : list num) (sampleRate : num) :
  forallb (fun e => negb (grants e)) trace = true ->
  onaudioprocess (run (stopRecording st) trace) pcmData sampleRate = NotSent.
Proof.
  intros G. unfold onaudioprocess.
  rewrite run_not_recording; [reflexivity | | exact G].
  rewrite stopRecording_eq. reflexivity.
Qed.

Lemma stopped_capture_sends_nothing_witness :
  onaudioprocess
    (run (stopRecording
            (run (constructed 0%float) [EvConnected; EvStart Granted]))
       [EvMessage 1%float {| inlineData := Some (str "AAAA");
                             interrupted := true |};
        EvStart (Denied "Permission denied"); EvReset; EvTimeout])
    [0.5%float] 48000%float
  = NotSent.
Proof.
  apply (@stopped_capture_sends_nothing float binary64). reflexivity.
Defined.

(** A start is granted whether or not a session exists; without one
    the component shows that it is recording, with no error, and every
    capture callback throws. *)
Theorem recording_without_a_session
    (num : Type) (N : Number num) (st : @State num)
    (pcmData : list num) (sampleRate : num) :
  isRecording st = false ->
  session st = None ->
  isRecording (startRecording Granted st) = true
  /\ status_text (render (startRecording Granted st))
     = "🔴 Recording... Capturing PCM chunks."%string
  /\ onaudioprocess (startRecording Granted st) pcmData sampleRate
     = CaptureThrew.
Proof.
  intros H S. unfold startRecording, onaudioprocess. rewrite H.
  cbn. rewrite S. repeat split.
Qed.

Lemma recording_without_a_session_witness :
  onaudioprocess
    (startRecording Granted
       (run (constructed 0%float) [EvConnectFailed "offline"]))
    [0.5%float] 48000%float
  = CaptureThrew.
Proof.
  destruct (@recording_without_a_session float binary64
              (run (constructed 0%float) [EvConnectFailed "offline"])
              [0.5%float] 48000%float eq_refl eq_refl)
    as (_ & _ & H).
  exact H.
Defined.
